(** * spotify_tool.py: normalisation, ingestion and aggregation of listening history

    A shallow embedding of [src/spotify_tool.py].  Python values decoded from
    JSON are an inductive type, dictionaries are finite maps, exceptions are an
    explicit result type, the SQLite connection is a pair of a durable database
    and the working copy of the open transaction, and the libraries the tool
    calls (dateutil, hashlib, json, the clock, pandas' sort, the plots) are
    parameters collected in records. *)

From Stdlib Require Import ZArith String Ascii List Lia Bool Permutation.
From Stdlib Require Import Floats.SpecFloat.
From Stdlib Require OrderedTypeEx.
From Stdlib Require Import QArith Sorted.
From stdpp Require Import base option gmap strings list.

Import ListNotations.
#[local] Open Scope string_scope.
#[local] Open Scope Z_scope.

(** ** Python values and exceptions *)

(** The exceptions that the modelled code can raise. [ParserError] is
    dateutil's subclass of [ValueError]; [InterfaceError] and [IntegrityError]
    are sqlite3's; [UnicodeEncodeError] is what encoding a [str] that holds a
    lone surrogate as UTF-8 raises. *)
Inductive exn : Type :=
| TypeError
| ValueError
| ParserError
| OverflowError
| InterfaceError
| IntegrityError
| UnicodeEncodeError.

(** The outcome of a call: a value, or an exception that propagates. *)
Inductive result (A : Type) : Type :=
| Ok (a : A)
| Raise (e : exn).
Arguments Ok {A} a.
Arguments Raise {A} e.

Definition rbind {A B : Type} (r : result A) (k : A -> result B) : result B :=
  match r with
  | Ok a => k a
  | Raise e => Raise e
  end.

Notation "'let!' x ':=' r 'in' k" := (rbind r (fun x => k))
  (at level 10, x name, k at level 200).

(** What [json.loads] produces: [None], [bool], [int], [float] (an IEEE
    double, here a [spec_float]), [str], [list] and [dict]. *)
#[warnings="-register-all"]
Inductive json : Type :=
| JNull
| JBool (b : bool)
| JInt (z : Z)
| JFloat (f : spec_float)
| JStr (s : string)
| JList (l : list json)
| JDict (d : gmap string json).

(** A decoded JSON object. *)
Abbreviation pydict := (gmap string json).

(** Python's truth value of a decoded JSON value. *)
Definition truthy (v : json) : bool :=
  match v with
  | JNull => false
  | JBool b => b
  | JInt z => negb (z =? 0)
  | JFloat (S754_zero _) => false
  | JFloat _ => true
  | JStr s => negb (String.eqb s "")
  | JList l => match l with [] => false | _ => true end
  | JDict d => match map_to_list d with [] => false | _ => true end
  end.

(** [x or y]. *)
Definition py_or (x y : json) : json := if truthy x then x else y.

(** [obj.get(k)]: the value, [None] when the key is missing. *)
Definition get (obj : pydict) (k : string) : json :=
  match obj !! k with
  | Some v => v
  | None => JNull
  end.

(** [k in obj]. *)
Definition has_key (obj : pydict) (k : string) : bool :=
  match obj !! k with
  | Some _ => true
  | None => false
  end.

(** *** Text

    A [str] is kept as the bytes of its UTF-8 encoding, a lone surrogate
    (which [json.loads] makes of an escape such as [\ud800], and
    [os.fsdecode] of a byte of a file name that is not UTF-8) as the bytes
    that cannot be decoded. *)

Definition in_range (lo hi : N) (c : ascii) : bool :=
  let n := N_of_ascii c in ((lo <=? n) && (n <=? hi))%N.

(** Well-formed UTF-8: the text holds no lone surrogate. *)
Fixpoint utf8_valid (s : string) : bool :=
  match s with
  | EmptyString => true
  | String a r =>
      if in_range 0 127 a then utf8_valid r
      else if in_range 194 223 a then
        match r with
        | String b r' => in_range 128 191 b && utf8_valid r'
        | _ => false
        end
      else if in_range 224 239 a then
        match r with
        | String b (String c r') =>
            in_range (if in_range 224 224 a then 160 else 128)
                     (if in_range 237 237 a then 159 else 191) b
            && in_range 128 191 c && utf8_valid r'
        | _ => false
        end
      else if in_range 240 244 a then
        match r with
        | String b (String c (String d r')) =>
            in_range (if in_range 240 240 a then 144 else 128)
                     (if in_range 244 244 a then 143 else 191) b
            && in_range 128 191 c && in_range 128 191 d && utf8_valid r'
        | _ => false
        end
      else false
  end.

(** Whether the text is plain: ASCII characters only, at most 640 of them. *)
Definition is_plain (s : string) : bool :=
  forallb (in_range 0 127) (list_ascii_of_string s)
  && Nat.leb (String.length s) 640.

(** *** [int(...)] *)

(** The blanks [int()] skips around an ASCII literal: tab, line feed,
    vertical tab, form feed, carriage return and space. *)
Definition is_space (c : ascii) : bool :=
  let n := N_of_ascii c in
  ((9 <=? n) && (n <=? 13) || (n =? 32))%N.

Definition digit_of (c : ascii) : option Z :=
  let n := Z.of_N (N_of_ascii c) in
  if (48 <=? n) && (n <=? 57) then Some (n - 48) else None.

Fixpoint lstrip (s : string) : string :=
  match s with
  | String c r => if is_space c then lstrip r else s
  | EmptyString => s
  end.

(** Digits of a decimal literal, single underscores allowed between digits;
    trailing white space is skipped. [prev] tells whether the previous
    character was a digit. *)
Fixpoint int_digits (acc : Z) (prev : bool) (s : string) : option Z :=
  match s with
  | EmptyString => if prev then Some acc else None
  | String c r =>
      match digit_of c with
      | Some d => int_digits (10 * acc + d) true r
      | None =>
          if Ascii.eqb c "_" then
            (if prev then
               match r with
               | String c' _ =>
                   match digit_of c' with
                   | Some _ => int_digits acc false r
                   | None => None
                   end
               | EmptyString => None
               end
             else None)
          else if is_space c then
            (if prev then
               match lstrip r with
               | EmptyString => Some acc
               | _ => None
               end
             else None)
          else None
      end
  end.

(** [int(s)] for a plain [str]: optional blanks, an optional sign, decimal
    digits, optional blanks.  [None] is [ValueError]. *)
Definition int_of_str (s : string) : option Z :=
  match lstrip s with
  | String "-" r => option_map Z.opp (int_digits 0 false r)
  | String "+" r => int_digits 0 false r
  | r => int_digits 0 false r
  end.

(** [int(x)] for a [float]: truncation toward zero; [inf] and [nan] raise. *)
Definition int_of_float (f : spec_float) : result Z :=
  match f with
  | S754_zero _ => Ok 0
  | S754_infinity _ => Raise OverflowError
  | S754_nan => Raise ValueError
  | S754_finite s m e =>
      let mag :=
        match e with
        | Z0 => Zpos m
        | Zpos p => Zpos m * 2 ^ Zpos p
        | Zneg p => Zpos m / 2 ^ Zpos p
        end in
      Ok (if s then - mag else mag)
  end.

(** [int(v)].  A plain text is read by [int_of_str].  For any other text
    the interpreter's tables decide: the decimal digits and the blanks of
    Unicode are accepted too, and a literal of more than 640 digits is
    refused or not by the limit the interpreter was started with.  They are
    not code of this repository: [other] stands for them, [None] being
    [ValueError]. *)
Definition py_int (other : string -> option Z) (v : json) : result Z :=
  match v with
  | JNull => Raise TypeError
  | JBool b => Ok (if b then 1 else 0)
  | JInt z => Ok z
  | JFloat f => int_of_float f
  | JStr s =>
      match (if is_plain s then int_of_str s else other s) with
      | Some z => Ok z
      | None => Raise ValueError
      end
  | JList _ => Raise TypeError
  | JDict _ => Raise TypeError
  end.

(** ** Dates and times

    A [datetime] is kept at the resolution [isoformat(timespec="seconds")]
    prints: [wall] is the number of seconds from 1970-01-01T00:00:00 to the
    wall-clock fields, read without any zone.  A [tzinfo] is the interface
    Python gives a zone: the offset in seconds for a wall time (and its
    [fold]), and [fromutc], which turns UTC seconds into the zone's wall time
    and fold. *)

Record tzinfo : Type := {
  utcoffset : Z -> bool -> Z;
  fromutc : Z -> Z * bool
}.

Record datetime : Type := {
  wall : Z;
  fold : bool;
  tz : option tzinfo
}.

(** [tz.UTC]. *)
Definition UTC : tzinfo :=
  {| utcoffset := fun _ _ => 0; fromutc := fun u => (u, false) |}.

(** [tz.tzoffset(None, secs)]. *)
Definition tzoffset (secs : Z) : tzinfo :=
  {| utcoffset := fun _ _ => secs; fromutc := fun u => (u + secs, false) |}.

(** Days from 1970-01-01 of a date of the proleptic Gregorian calendar. *)
Definition days_from_civil (y m d : Z) : Z :=
  let y' := if m <=? 2 then y - 1 else y in
  let era := y' / 400 in
  let yoe := y' - era * 400 in
  let mp := if 2 <? m then m - 3 else m + 9 in
  let doy := (153 * mp + 2) / 5 + d - 1 in
  let doe := yoe * 365 + yoe / 4 - yoe / 100 + doy in
  era * 146097 + doe - 719468.

(** The date (year, month, day) of a number of days from 1970-01-01. *)
Definition civil_from_days (z : Z) : Z * Z * Z :=
  let z' := z + 719468 in
  let era := z' / 146097 in
  let doe := z' - era * 146097 in
  let yoe := (doe - doe / 1460 + doe / 36524 - doe / 146096) / 365 in
  let doy := doe - (365 * yoe + yoe / 4 - yoe / 100) in
  let mp := (5 * doy + 2) / 153 in
  let d := doy - (153 * mp + 2) / 5 + 1 in
  let m := if mp <? 10 then mp + 3 else mp - 9 in
  let y := yoe + era * 400 in
  (if m <=? 2 then y + 1 else y, m, d).

(** [datetime.min] and [datetime.max], in wall seconds. *)
Definition MINWALL : Z := days_from_civil 1 1 1 * 86400.
Definition MAXWALL : Z := days_from_civil 9999 12 31 * 86400 + 86399.

(** Datetime arithmetic raises [OverflowError] outside years 1..9999. *)
Definition checked (w : Z) : result Z :=
  if (MINWALL <=? w) && (w <=? MAXWALL) then Ok w else Raise OverflowError.

(** [dt.replace(tzinfo=z)]: same wall-clock fields, same fold. *)
Definition replace_tzinfo (dt : datetime) (z : tzinfo) : datetime :=
  {| wall := wall dt; fold := fold dt; tz := Some z |}.

(** The offset of an aware datetime, [0] standing for a naive one. *)
Definition offset_of (dt : datetime) : Z :=
  match tz dt with
  | Some z => utcoffset z (wall dt) (fold dt)
  | None => 0
  end.

(** [dt.astimezone(z)] for an aware [dt]: [z.fromutc(dt - dt.utcoffset())].
    (CPython returns [dt] itself when [z] is already its zone; for [tz.UTC]
    that is the same wall time.) *)
Definition astimezone (dt : datetime) (z : tzinfo) : result datetime :=
  let! u := checked (wall dt - offset_of dt) in
  let '(w, f) := fromutc z u in
  let! w' := checked w in
  Ok {| wall := w'; fold := f; tz := Some z |}.

(** *** [isoformat(timespec="seconds")] *)

Definition digit_char (d : Z) : ascii := ascii_of_N (Z.to_N (48 + d mod 10)).

Definition two_digits (n : Z) : string :=
  String (digit_char (n / 10)) (String (digit_char n) EmptyString).

Definition four_digits (n : Z) : string :=
  String (digit_char (n / 1000)) (String (digit_char (n / 100))
    (String (digit_char (n / 10)) (String (digit_char n) EmptyString))).

(** The [+HH:MM] suffix, with [:SS] when the offset has seconds. *)
Definition format_offset (off : Z) : string :=
  let a := Z.abs off in
  (if off <? 0 then "-" else "+") ++ two_digits (a / 3600) ++ ":"
    ++ two_digits (a mod 3600 / 60)
    ++ (if a mod 60 =? 0 then "" else ":" ++ two_digits (a mod 60)).

Definition format_wall (w : Z) : string :=
  let '(y, m, d) := civil_from_days (w / 86400) in
  let s := w mod 86400 in
  four_digits y ++ "-" ++ two_digits m ++ "-" ++ two_digits d ++ "T"
    ++ two_digits (s / 3600) ++ ":" ++ two_digits (s mod 3600 / 60) ++ ":"
    ++ two_digits (s mod 60).

(** [to_iso]: [dt.isoformat(timespec="seconds")]. *)
Definition to_iso (dt : datetime) : string :=
  format_wall (wall dt) ++
  match tz dt with
  | Some z => format_offset (utcoffset z (wall dt) (fold dt))
  | None => ""
  end.

(** ** dateutil

    [dateutil.parser.parse], [dateutil.parser.isoparse] and the zone
    [tz.gettz("Europe/Paris")] are not code of this repository: the
    normaliser takes them as given.  Both parsers get the text of a [str].
    With them comes [int_text], what [int()] makes of a text that is not
    plain (see [py_int]). *)
Record dateutil : Type := {
  parser_parse : string -> result datetime;
  parser_isoparse : string -> result datetime;
  PARIS : tzinfo;
  int_text : string -> option Z
}.

(** [dtparser.parse(v)]: anything that is not text is refused with
    [TypeError] before any parsing. *)
Definition dtparser_parse (L : dateutil) (v : json) : result datetime :=
  match v with
  | JStr s => parser_parse L s
  | _ => Raise TypeError
  end.

(** [dtparser.isoparse(v)]: text is parsed; [len()] of a number, a boolean
    or [None] is a [TypeError]; a container is measured first ("ISO string too
    short" under four items) and fails when sliced (with [TypeError] on
    CPython up to 3.11). *)
Definition dtparser_isoparse (L : dateutil) (v : json) : result datetime :=
  match v with
  | JStr s => parser_isoparse L s
  | JList l => if (Z.of_nat (List.length l) <? 4) then Raise ValueError else Raise TypeError
  | JDict d => if (Z.of_nat (size d) <? 4) then Raise ValueError else Raise TypeError
  | _ => Raise TypeError
  end.

(** ** The schema normaliser *)

(** The tuple [parse_event] returns, field by field. *)
Record row : Type := {
  played_at_utc : string;
  played_at_local : string;
  track_name : json;
  artist_name : json;
  album_name : json;
  ms_played : Z;
  platform : json;
  content_type : string;
  raw_source : string
}.

(** The old format's two timestamps: [(end_utc, end_local)]. *)
Definition old_times (L : dateutil) (end_time : datetime) : result (datetime * datetime) :=
  let! end_local :=
    match tz end_time with
    | None => Ok (replace_tzinfo end_time (PARIS L))
    | Some _ => astimezone end_time (PARIS L)
    end in
  let! end_utc := astimezone end_local UTC in
  Ok (end_utc, end_local).

(** The [ts] format's two timestamps: [(ts_utc, ts_local)]. *)
Definition new_times (L : dateutil) (ts_dt : datetime) : result (datetime * datetime) :=
  let ts_dt :=
    match tz ts_dt with
    | None => replace_tzinfo ts_dt UTC
    | Some _ => ts_dt
    end in
  let! ts_utc := astimezone ts_dt UTC in
  let! ts_local := astimezone ts_utc (PARIS L) in
  Ok (ts_utc, ts_local).

(** The branch of the old format ([endTime] / [msPlayed]); both keys are
    there, so [obj["endTime"]] is [get obj "endTime"]. *)
Definition old_format (L : dateutil) (obj : pydict) : result (option row) :=
  let! end_time := dtparser_parse L (get obj "endTime") in
  let! t := old_times L end_time in
  let! ms := py_int (int_text L) (py_or (get obj "msPlayed") (JInt 0)) in
  if ms <=? 0 then Ok None
  else
    Ok (Some {|
      played_at_utc := to_iso (fst t);
      played_at_local := to_iso (snd t);
      track_name := get obj "trackName";
      artist_name := get obj "artistName";
      album_name := JNull;
      ms_played := ms;
      platform := JNull;
      content_type := "music";
      raw_source := "streaming_history_old"
    |}).

(** The branch of the [ts] format (extended history); [ts] is there, so
    [obj["ts"]] is [get obj "ts"]. *)
Definition ts_format (L : dateutil) (obj : pydict) : result (option row) :=
  let! ts_dt := dtparser_isoparse L (get obj "ts") in
  let! t := new_times L ts_dt in
  let! ms := py_int (int_text L)
               (py_or (py_or (get obj "ms_played") (get obj "msPlayed")) (JInt 0)) in
  if ms <=? 0 then Ok None
  else
    let track := py_or (get obj "master_metadata_track_name") (get obj "trackName") in
    let artist := py_or (get obj "master_metadata_album_artist_name") (get obj "artistName") in
    let album := py_or (get obj "master_metadata_album_album_name") (get obj "albumName") in
    let track :=
      if negb (truthy track)
      then py_or (get obj "episode_name") (get obj "episode_title")
      else track in
    let artist :=
      if negb (truthy artist)
      then py_or (get obj "episode_show_name") (get obj "show_name")
      else artist in
    let content_type :=
      if truthy (py_or (py_or (get obj "spotify_episode_uri") (get obj "episode_name"))
                       (get obj "episode_show_name"))
      then "podcast" else "music" in
    Ok (Some {|
      played_at_utc := to_iso (fst t);
      played_at_local := to_iso (snd t);
      track_name := track;
      artist_name := artist;
      album_name := album;
      ms_played := ms;
      platform := get obj "platform";
      content_type := content_type;
      raw_source := "streaming_history_new"
    |}).

(** [parse_event(obj)]: [Ok (Some r)] is a row, [Ok None] is [None], and
    [Raise e] is an exception leaving the function. *)
Definition parse_event (L : dateutil) (obj : pydict) : result (option row) :=
  if has_key obj "endTime" && has_key obj "msPlayed" then old_format L obj
  else if has_key obj "ts" && (has_key obj "ms_played" || has_key obj "msPlayed")
  then ts_format L obj
  else Ok None.

(** ** The store

    The two tables of [init_db].  [AUTOINCREMENT] keys come from a counter
    kept with each table; SQLite's conversion of bound values to the column's
    affinity is left out (values are kept as bound). *)

Record import_record : Type := {
  import_id : Z;
  imported_at : string;
  export_root : string;
  file_path : string;
  file_hash : string;
  rows_inserted : Z
}.

Record event : Type := {
  event_id : Z;
  event_row : row;
  source_file_hash : string
}.

Record db : Type := {
  imports : list import_record;
  events : list event;
  imports_seq : Z;
  events_seq : Z
}.

(** The database right after [init_db] on a new file. *)
Definition empty_db : db :=
  {| imports := []; events := []; imports_seq := 0; events_seq := 0 |}.

(** A connection: what is committed, and the working copy of the open
    transaction (sqlite3 opens one before the first [INSERT]). *)
Record conn : Type := {
  durable : db;
  txn : option db
}.

Definition connect (d : db) : conn := {| durable := d; txn := None |}.

(** What the connection's own statements see. *)
Definition current (c : conn) : db :=
  match txn c with
  | Some d => d
  | None => durable c
  end.

(** Whether sqlite3 can bind a [str] as a statement parameter: it is
    encoded as UTF-8, which a lone surrogate does not allow. *)
Definition bind_text (s : string) : result unit :=
  if utf8_valid s then Ok tt else Raise UnicodeEncodeError.

(** Whether sqlite3 can bind a Python value as a statement parameter. *)
Definition bind (v : json) : result unit :=
  match v with
  | JList _ | JDict _ => Raise InterfaceError
  | JInt z =>
      if (- 2 ^ 63 <=? z) && (z <? 2 ^ 63) then Ok tt else Raise OverflowError
  | JStr s => bind_text s
  | _ => Ok tt
  end.

Definition bind_row (r : row) : result unit :=
  let! _ := bind (track_name r) in
  let! _ := bind (artist_name r) in
  let! _ := bind (album_name r) in
  let! _ := bind (JInt (ms_played r)) in
  bind (platform r).

(** The table after one more event. *)
Definition event_added (d : db) (r : row) (h : string) : db :=
  {| imports := imports d;
     events := (events d ++ [{| event_id := events_seq d + 1; event_row := r;
                                source_file_hash := h |}])%list;
     imports_seq := imports_seq d;
     events_seq := events_seq d + 1 |}.

(** One [INSERT INTO events]. *)
Definition insert_event (d : db) (r : row) (h : string) : result db :=
  let! _ := bind_row r in
  Ok (event_added d r h).

(** [executemany] over the rows: the rows before a failing one stay in the
    transaction. *)
Fixpoint insert_events (d : db) (rows : list row) (h : string) : db * option exn :=
  match rows with
  | [] => (d, None)
  | r :: rest =>
      match insert_event d r h with
      | Ok d' => insert_events d' rest h
      | Raise e => (d, Some e)
      end
  end.

Definition hash_recorded (d : db) (h : string) : bool :=
  existsb (fun r => String.eqb (file_hash r) h) (imports d).

(** The table after one more import record. *)
Definition import_added (d : db) (at_ root p h : string) (n : Z) : db :=
  {| imports := (imports d ++ [{| import_id := imports_seq d + 1; imported_at := at_;
                                   export_root := root; file_path := p; file_hash := h;
                                   rows_inserted := n |}])%list;
     events := events d;
     imports_seq := imports_seq d + 1;
     events_seq := events_seq d |}.

(** The parameters of [INSERT INTO imports] that sqlite3 may fail to bind:
    [str(export_root)] and [str(f)], in this order.  ([imported_at] is what
    [isoformat] printed and the hash is a hex digest; the count is a length.) *)
Definition bind_import (root p : string) : result unit :=
  let! _ := bind_text root in
  bind_text p.

(** [INSERT INTO imports] once its parameters are bound: [file_hash] is
    [UNIQUE]. *)
Definition insert_import (d : db) (at_ root p h : string) (n : Z) : result db :=
  if hash_recorded d h then Raise IntegrityError
  else Ok (import_added d at_ root p h n).

(** What [ingest_export] sends to the connection.  [conn.execute] of
    [INSERT INTO imports] is two steps: sqlite3 opens the transaction if none
    is open and binds the parameters ([BindImport]), then SQLite runs the
    statement ([InsertImport]). *)
Inductive stmt : Type :=
| InsertEvents (rows : list row) (h : string)
| BindImport (root p : string)
| InsertImport (at_ root p h : string) (n : Z)
| Commit.

(** One statement: the connection afterwards, and the exception if it
    failed.  A failed statement leaves the transaction it opened. *)
Definition exec (c : conn) (s : stmt) : conn * option exn :=
  match s with
  | InsertEvents rows h =>
      let '(d, e) := insert_events (current c) rows h in
      ({| durable := durable c; txn := Some d |}, e)
  | BindImport root p =>
      ({| durable := durable c; txn := Some (current c) |},
       match bind_import root p with
       | Ok _ => None
       | Raise e => Some e
       end)
  | InsertImport at_ root p h n =>
      match insert_import (current c) at_ root p h n with
      | Ok d => ({| durable := durable c; txn := Some d |}, None)
      | Raise e => ({| durable := durable c; txn := Some (current c) |}, Some e)
      end
  | Commit => ({| durable := current c; txn := None |}, None)
  end.

(** Statements in sequence, stopping at the first exception; the first
    component lists the connection after every statement that ran. *)
Fixpoint exec_stmts (c : conn) (ss : list stmt) : list conn * result conn :=
  match ss with
  | [] => ([], Ok c)
  | s :: ss' =>
      match exec c s with
      | (c', Some e) => ([c'], Raise e)
      | (c', None) =>
          let '(tr, r) := exec_stmts c' ss' in (c' :: tr, r)
      end
  end.

(** [already_imported(conn, file_hash)]. *)
Definition already_imported (c : conn) (h : string) : bool :=
  hash_recorded (current c) h.

(** ** The ingestion coordinator *)

(** What the host gives: the SHA-256 hex digest of a file's bytes, and
    [json.loads(f.read_text(encoding="utf-8"))], [None] when it raises. *)
Record host : Type := {
  sha256 : string -> string;
  read_json : string -> option json
}.

(** A discovered file: its path and its bytes. *)
Record file : Type := {
  path : string;
  content : string
}.

(** The rows of the objects of a decoded array, in order. *)
Fixpoint collect_rows (L : dateutil) (data : list json) : result (list row) :=
  match data with
  | [] => Ok []
  | JDict obj :: rest =>
      let! e := parse_event L obj in
      let! rs := collect_rows L rest in
      Ok (match e with Some r => r :: rs | None => rs end)
  | _ :: rest => collect_rows L rest
  end.

(** The accepted rows of a file's content. *)
Definition file_rows (H : host) (L : dateutil) (f : file) : result (list row) :=
  match read_json H (content f) with
  | Some (JList data) => collect_rows L data
  | _ => Ok []
  end.

(** The loop's counters. *)
Record counters : Type := {
  new_files : Z;
  skipped : Z;
  rows_total : Z
}.

(** The statements of one file not yet imported. *)
Definition file_stmts (at_ root : string) (f : file) (h : string) (rows : list row) : list stmt :=
  ((match rows with [] => [] | _ => [InsertEvents rows h] end)
     ++ [BindImport root (path f);
         InsertImport at_ root (path f) h (Z.of_nat (List.length rows));
         Commit])%list.

(** One turn of the loop of [ingest_export].  [clock k] is what
    [datetime.now(timezone.utc).isoformat(timespec="seconds")] returns at the
    run's import number [k]. *)
Definition process_file (H : host) (L : dateutil) (clock : Z -> string) (root : string)
    (c : conn) (n : counters) (f : file) : list conn * result (conn * counters) :=
  let h := sha256 H (content f) in
  if already_imported c h then
    ([], Ok (c, {| new_files := new_files n; skipped := skipped n + 1;
                   rows_total := rows_total n |}))
  else
    match file_rows H L f with
    | Raise e => ([], Raise e)
    | Ok rows =>
        match exec_stmts c (file_stmts (clock (new_files n)) root f h rows) with
        | (tr, Raise e) => (tr, Raise e)
        | (tr, Ok c') =>
            (tr, Ok (c', {| new_files := new_files n + 1; skipped := skipped n;
                            rows_total := rows_total n + Z.of_nat (List.length rows) |}))
        end
    end.

Fixpoint ingest_loop (H : host) (L : dateutil) (clock : Z -> string) (root : string)
    (c : conn) (n : counters) (files : list file) : list conn * result (conn * counters) :=
  match files with
  | [] => ([], Ok (c, n))
  | f :: rest =>
      match process_file H L clock root c n f with
      | (tr, Raise e) => (tr, Raise e)
      | (tr, Ok (c', n')) =>
          let '(tr', r) := ingest_loop H L clock root c' n' rest in
          ((tr ++ tr')%list, r)
      end
  end.

(** The dictionary [ingest_export] returns. *)
Record summary : Type := {
  summary_export_root : string;
  files_found : Z;
  new_files_imported : Z;
  files_skipped : Z;
  summary_rows_inserted : Z
}.

(** [ingest_export(conn, export_root)], over the files
    [find_candidate_files] returned: the connection after every statement
    that ran, and the outcome. *)
Definition ingest_export (H : host) (L : dateutil) (clock : Z -> string) (root : string)
    (c : conn) (files : list file) : list conn * result (conn * summary) :=
  match ingest_loop H L clock root c
          {| new_files := 0; skipped := 0; rows_total := 0 |} files with
  | (tr, Raise e) => (tr, Raise e)
  | (tr, Ok (c', n)) =>
      (tr, Ok (c', {| summary_export_root := root;
                      files_found := Z.of_nat (List.length files);
                      new_files_imported := new_files n;
                      files_skipped := skipped n;
                      summary_rows_inserted := rows_total n |}))
  end.

(** ** A reference instance of the libraries

    Used to run the model on concrete records.  [Ref.parse_text] reads the
    texts [YYYY-MM-DD HH:MM:SS] and [YYYY-MM-DDTHH:MM:SS], with an optional
    [Z] or [+HH:MM] / [-HH:MM] suffix, as both dateutil parsers do; any other
    text is refused, which is dateutil's answer for texts that hold no date
    and is not meant to describe dateutil on the other formats it reads.
    [Ref.paris] is Central European Time under the European Union's rule
    (summer time from the last Sunday of March to the last Sunday of October,
    switching at 01:00 UTC), the rule Europe/Paris has followed since 1996.
    The instance's [int_text] refuses every text that is not plain, which is
    not meant to describe the interpreter either: no record below holds one. *)
Module Ref.

Fixpoint take_digits (n : nat) (acc : Z) (s : string) : option (Z * string) :=
  match n with
  | O => Some (acc, s)
  | S n' =>
      match s with
      | String c r =>
          match digit_of c with
          | Some d => take_digits n' (10 * acc + d) r
          | None => None
          end
      | EmptyString => None
      end
  end.

Definition expect (c : ascii) (s : string) : option string :=
  match s with
  | String c' r => if Ascii.eqb c c' then Some r else None
  | EmptyString => None
  end.

Definition is_leap (y : Z) : bool :=
  (y mod 4 =? 0) && (negb (y mod 100 =? 0) || (y mod 400 =? 0)).

Definition days_in_month (y m : Z) : Z :=
  if m =? 2 then (if is_leap y then 29 else 28)
  else if (m =? 4) || (m =? 6) || (m =? 9) || (m =? 11) then 30
  else 31.

(** The zone suffix: nothing (naive), [Z], or a signed [HH:MM]. *)
Definition parse_zone (s : string) : option (option tzinfo) :=
  match s with
  | EmptyString => Some None
  | String "Z" EmptyString => Some (Some UTC)
  | String sg r =>
      if Ascii.eqb sg "+" || Ascii.eqb sg "-" then
        '(hh, r) ← take_digits 2 0 r;
        r ← expect ":" r;
        '(mm, r) ← take_digits 2 0 r;
        match r with
        | EmptyString =>
            if (hh <? 24) && (mm <? 60) then
              let secs := hh * 3600 + mm * 60 in
              Some (Some (if secs =? 0 then UTC
                          else tzoffset (if Ascii.eqb sg "-" then - secs else secs)))
            else None
        | _ => None
        end
      else None
  end.

Definition parse_fields (s : string) : option datetime :=
  '(y, r) ← take_digits 4 0 s;
  r ← expect "-" r;
  '(m, r) ← take_digits 2 0 r;
  r ← expect "-" r;
  '(d, r) ← take_digits 2 0 r;
  r ← match r with
      | String c r' => if Ascii.eqb c "T" || Ascii.eqb c " " then Some r' else None
      | EmptyString => None
      end;
  '(hh, r) ← take_digits 2 0 r;
  r ← expect ":" r;
  '(mi, r) ← take_digits 2 0 r;
  r ← expect ":" r;
  '(ss, r) ← take_digits 2 0 r;
  z ← parse_zone r;
  if (1 <=? y) && (1 <=? m) && (m <=? 12) && (1 <=? d) && (d <=? days_in_month y m)
     && (hh <? 24) && (mi <? 60) && (ss <? 60)
  then Some {| wall := days_from_civil y m d * 86400 + hh * 3600 + mi * 60 + ss;
               fold := false; tz := z |}
  else None.

Definition parse_text (e : exn) (s : string) : result datetime :=
  match parse_fields s with
  | Some dt => Ok dt
  | None => Raise e
  end.

(** Day of the month of the last Sunday of a 31-day month. *)
Definition last_sunday (y m : Z) : Z :=
  31 - (days_from_civil y m 31 + 4) mod 7.

(** The two switches of year [y], in UTC seconds. *)
Definition summer_start (y : Z) : Z := days_from_civil y 3 (last_sunday y 3) * 86400 + 3600.
Definition summer_end (y : Z) : Z := days_from_civil y 10 (last_sunday y 10) * 86400 + 3600.

Definition year_of (secs : Z) : Z := fst (fst (civil_from_days (secs / 86400))).

Definition paris_fromutc (u : Z) : Z * bool :=
  let y := year_of u in
  if (summer_start y <=? u) && (u <? summer_end y) then (u + 7200, false)
  else (u + 3600, (summer_end y <=? u) && (u <? summer_end y + 3600)).

Definition paris_utcoffset (w : Z) (fold : bool) : Z :=
  let y := year_of w in
  if (summer_start y + 3600 <=? w) && (w <? summer_end y + 3600) then 7200
  else if (summer_end y + 3600 <=? w) && (w <? summer_end y + 7200) then
    (if fold then 3600 else 7200)
  else 3600.

Definition paris : tzinfo :=
  {| utcoffset := paris_utcoffset; fromutc := paris_fromutc |}.

Definition libs : dateutil :=
  {| parser_parse := parse_text ParserError;
     parser_isoparse := parse_text ValueError;
     PARIS := paris;
     int_text := fun _ => None |}.

End Ref.

(** ** The aggregator: top artists

    [report] computes
    [df.dropna(subset=["artist_name"]).groupby("artist_name")["minutes"].sum()
       .sort_values(ascending=False).head(15)].
    pandas is not code of this repository.  Its floating-point arithmetic
    ([ms_played / 60000.0], the sum of a group) and the sort behind
    [sort_values] (NumPy's quicksort, which promises no order among equal
    values) are taken as given; [groupby] lists the groups in ascending key
    order (its default, [sort=True]), each with its rows in frame order. *)
Record pandas (F : Type) : Type := {
  minutes_of : Z -> F;
  group_sum : list F -> F;
  sort_values_desc : list (string * F) -> list (string * F)
}.
Arguments minutes_of {F} _ _.
Arguments group_sum {F} _ _.
Arguments sort_values_desc {F} _ _.

(** The two columns of the frame of [load_df] this aggregation reads. *)
Record play : Type := {
  play_artist : option string;
  play_ms : Z
}.

(** [dropna(subset=["artist_name"])], with the [minutes] column. *)
Fixpoint dropna {F : Type} (P : pandas F) (df : list play) : list (string * F) :=
  match df with
  | [] => []
  | p :: rest =>
      match play_artist p with
      | Some a => (a, minutes_of P (play_ms p)) :: dropna P rest
      | None => dropna P rest
      end
  end.

(** A key put at its place in an ascending list without repeats. *)
Fixpoint insert_key (k : string) (ks : list string) : list string :=
  match ks with
  | [] => [k]
  | k' :: r =>
      match String.compare k k' with
      | Lt => k :: ks
      | Eq => ks
      | Gt => k' :: insert_key k r
      end
  end.

(** The group keys: the distinct artists, ascending. *)
Definition group_keys (names : list string) : list string :=
  fold_right insert_key [] names.

(** The minutes of one artist's rows, in frame order. *)
Definition group_values {F : Type} (k : string) (rows : list (string * F)) : list F :=
  map snd (List.filter (fun r => String.eqb (fst r) k) rows).

(** [groupby("artist_name")["minutes"].sum()]. *)
Definition groupby_sum {F : Type} (P : pandas F) (rows : list (string * F)) : list (string * F) :=
  map (fun k => (k, group_sum P (group_values k rows))) (group_keys (map fst rows)).

(** [top_art] of [report]. *)
Definition top_artists {F : Type} (P : pandas F) (df : list play) : list (string * F) :=
  firstn 15 (sort_values_desc P (groupby_sum P (dropna P df))).

(** Position of the first occurrence of a name. *)
Fixpoint first_index (k : string) (names : list string) : option nat :=
  match names with
  | [] => None
  | k' :: r =>
      if String.eqb k k' then Some O
      else option_map S (first_index k r)
  end.

(** [a] occurs, and [b] does not occur before it. *)
Definition comes_first (a b : string) (names : list string) : Prop :=
  exists i, first_index a names = Some i /\
    forall j, first_index b names = Some j -> (i < j)%nat.

(** The artists of a frame in the order they are met. *)
Definition artists_met (df : list play) : list string :=
  omap play_artist df.

(** A host for running the model on concrete files: the digest is a
    stand-in (the bytes themselves), and [json.loads] is tabulated on the
    sample contents below; any other content counts as undecodable. *)
Module Sample.

Definition old_record : pydict :=
  <["endTime" := JStr "2023-05-01 10:00:00"]> (<["msPlayed" := JInt 120000]>
  (<["trackName" := JStr "A"]> (<["artistName" := JStr "B"]> ∅))).

Definition new_record : pydict :=
  <["ts" := JStr "2023-05-01T08:00:00Z"]> (<["ms_played" := JInt 60000]>
  (<["master_metadata_track_name" := JStr "C"]> (<["episode_name" := JStr "D"]> ∅))).

Definition zero_record : pydict :=
  <["endTime" := JStr "2023-05-01 11:00:00"]> (<["msPlayed" := JInt 0]> ∅).

Definition negative_record : pydict :=
  <["ts" := JStr "2023-05-01T09:00:00Z"]> (<["ms_played" := JInt (-5)]> ∅).

(** The same offset-less text in the two formats. *)
Definition old_naive : pydict :=
  <["endTime" := JStr "2023-05-01T10:00:00"]> (<["msPlayed" := JInt 1000]> ∅).
Definition ts_naive : pydict :=
  <["ts" := JStr "2023-05-01T10:00:00"]> (<["ms_played" := JInt 1000]> ∅).

(** An old-format record whose text carries an offset. *)
Definition old_aware : pydict :=
  <["endTime" := JStr "2023-12-01T10:00:00-05:00"]> (<["msPlayed" := JInt 1000]> ∅).

(** A music record of an extended history: the podcast fields are there,
    one [null] and one empty. *)
Definition null_episode : pydict :=
  <["ts" := JStr "2023-05-01T08:00:00Z"]> (<["ms_played" := JInt 60000]>
  (<["master_metadata_track_name" := JStr "C"]> (<["episode_name" := JNull]>
  (<["episode_show_name" := JStr ""]> ∅)))).




(** Records that are malformed each in one field. *)
Definition numeric_end_time : pydict :=
  <["endTime" := JInt 1682935200]> (<["msPlayed" := JInt 1000]> ∅).
Definition garbled_end_time : pydict :=
  <["endTime" := JStr "not a date"]> (<["msPlayed" := JInt 1000]> ∅).
Definition garbled_ts : pydict :=
  <["ts" := JStr "not a date"]> (<["ms_played" := JInt 1000]> ∅).
Definition text_ms : pydict :=
  <["ts" := JStr "2023-05-01T08:00:00Z"]> (<["ms_played" := JStr "abc"]> ∅).

Definition history : file :=
  {| path := "/export/StreamingHistory0.json"; content := "history" |}.
Definition endsong : file :=
  {| path := "/export/endsong_0.json"; content := "endsong" |}.
Definition broken : file :=
  {| path := "/export/StreamingHistory1.json"; content := "not valid json" |}.
Definition object_file : file :=
  {| path := "/export/endsong_1.json"; content := "{}" |}.
Definition history_copy : file :=
  {| path := "/export/copy/StreamingHistory0.json"; content := "history" |}.

Definition garbled : file :=
  {| path := "/export/StreamingHistory2.json"; content := "garbled" |}.

(** A second file with the bytes of [broken], and a file of other
    undecodable bytes whose name holds the Latin-1 byte of an accented
    letter, which is not UTF-8. *)
Definition broken_copy : file :=
  {| path := "/export/copy/StreamingHistory1.json"; content := "not valid json" |}.
Definition broken_latin1 : file :=
  {| path := "/export/StreamingHistory_" ++ String (ascii_of_N 233) ".json";
     content := "neither is this" |}.

Definition loads (bytes : string) : option json :=
  if String.eqb bytes "history" then
    Some (JList [JDict old_record; JDict zero_record; JInt 3])
  else if String.eqb bytes "garbled" then
    Some (JList [JDict old_record; JDict garbled_end_time])
  else if String.eqb bytes "endsong" then
    Some (JList [JDict new_record; JDict negative_record])
  else if String.eqb bytes "{}" then Some (JDict ∅)
  else None.

Definition machine : host := {| sha256 := fun bytes => bytes; read_json := loads |}.

Definition clock (k : Z) : string :=
  if k =? 0 then "2024-01-01T00:00:00+00:00" else "2024-01-01T00:00:01+00:00".

Definition files : list file := [history; broken; endsong; history_copy; object_file].

End Sample.

(** ** Properties of a database *)


Definition imports_of (d : db) (h : string) : list import_record :=
  List.filter (fun r => String.eqb (file_hash r) h) (imports d).


(** The events a whole [executemany] appends, numbered from [seq]. *)
Fixpoint number_events (seq : Z) (rows : list row) (h : string) : list event :=
  match rows with
  | [] => []
  | r :: rest =>
      {| event_id := seq + 1; event_row := r; source_file_hash := h |}
        :: number_events (seq + 1) rest h
  end.

(** Whether [json.loads] gave a list. *)
Definition is_array (data : option json) : bool :=
  match data with
  | Some (JList _) => true
  | _ => false
  end.

(** Any statements sent over a connection, a failed one being survived by
    its caller. *)
Definition run_stmts (c : conn) (ss : list stmt) : conn :=
  fold_left (fun c s => fst (exec c s)) ss c.

(** The start of the loop of [ingest_export]. *)
Definition zero_counters : counters :=
  {| new_files := 0; skipped := 0; rows_total := 0 |}.

(** The counters after a skipped file, and after an imported one. *)
Definition skip_counted (n : counters) : counters :=
  {| new_files := new_files n; skipped := skipped n + 1; rows_total := rows_total n |}.

Definition import_counted (n : counters) (rows : list row) : counters :=
  {| new_files := new_files n + 1; skipped := skipped n;
     rows_total := rows_total n + Z.of_nat (List.length rows) |}.

(** The database a whole unit of file [f] leaves: the rows, then the import
    record. *)
Definition unit_added (H : host) (clock : Z -> string) (root : string)
    (d : db) (n : counters) (f : file) (rows : list row) : db :=
  import_added (fst (insert_events d rows (sha256 H (content f))))
    (clock (new_files n)) root (path f) (sha256 H (content f))
    (Z.of_nat (List.length rows)).




(** Every stored event has a positive play time. *)
Definition positive_events (d : db) : Prop :=
  Forall (fun e => 0 < ms_played (event_row e)) (events d).

(** At most one import record for each file hash. *)
Definition unique_hashes (d : db) : Prop :=
  forall h, (List.length (imports_of d h) <= 1)%nat.

(** Ascending order of names, by character code. *)
Definition name_lt (a b : string) : Prop := String.compare a b = Lt.

(** Tied artists come out in the order in which they are first met in the
    frame: whenever two artists of the result have equal sums and the first
    is met before the second in the frame, it stands before it in the result. *)
Definition ties_in_first_met_order {F : Type} (P : pandas F) : Prop :=
  forall df a b x,
    In (a, x) (top_artists P df) ->
    In (b, x) (top_artists P df) ->
    comes_first a b (artists_met df) ->
    comes_first a b (map fst (top_artists P df)).

(** One entry stands before another only if its sum is not smaller, for
    the order [le] of the sums. *)
Definition by_sum_desc {F : Type} (le : F -> F -> Prop) (x y : string * F) : Prop :=
  le (snd y) (snd x).

(** What [sort_values(ascending=False)] does with a series: the same
    entries, the larger sums first. *)
Definition sorts_descending {F : Type} (P : pandas F) (le : F -> F -> Prop) : Prop :=
  forall l,
    Permutation (sort_values_desc P l) l /\
    StronglySorted (by_sum_desc le) (sort_values_desc P l).

(** A stand-in for pandas with exact arithmetic: minutes are rationals,
    and the sort is a stable insertion sort, largest first. *)
Module Exact.

Definition insert_desc (x : string * Q) (l : list (string * Q)) : list (string * Q) :=
  (fix ins (l : list (string * Q)) : list (string * Q) :=
     match l with
     | [] => [x]
     | y :: r => if Qle_bool (snd y) (snd x) then x :: l else y :: ins r
     end) l.

Definition frame : pandas Q :=
  {| minutes_of := fun ms => Qmake ms 60000;
     group_sum := fun l => Qred (fold_left Qplus l (Qmake 0 1));
     sort_values_desc := fold_right insert_desc [] |}.

(** Two frames with the same plays, met in opposite orders. *)
Definition b_then_a : list play :=
  [{| play_artist := Some "B"; play_ms := 60000 |};
   {| play_artist := None; play_ms := 5 |};
   {| play_artist := Some "A"; play_ms := 60000 |}].

Definition a_then_b : list play :=
  [{| play_artist := Some "A"; play_ms := 60000 |};
   {| play_artist := Some "B"; play_ms := 60000 |}].

End Exact.

(** * Proofs *)

(** ** The normaliser *)

Ltac case_rbind H :=
  repeat match type of H with
         | context [rbind ?r _] =>
             let E := fresh "E" in
             destruct r eqn:E; simpl in H; try discriminate H
         end.

Lemma old_format_accepts L obj r :
  old_format L obj = Ok (Some r) ->
  exists dt t ms,
    dtparser_parse L (get obj "endTime") = Ok dt /\
    old_times L dt = Ok t /\
    py_int (int_text L) (py_or (get obj "msPlayed") (JInt 0)) = Ok ms /\
    0 < ms /\
    r = {| played_at_utc := to_iso (fst t); played_at_local := to_iso (snd t);
           track_name := get obj "trackName"; artist_name := get obj "artistName";
           album_name := JNull; ms_played := ms; platform := JNull;
           content_type := "music"; raw_source := "streaming_history_old" |}.
Proof.
  unfold old_format. intros Hr. case_rbind Hr.
  destruct (Z.leb_spec a1 0) as [Hle | Hlt]; [discriminate Hr |].
  injection Hr as <-. eauto 10.
Qed.

Lemma ts_format_accepts L obj r :
  ts_format L obj = Ok (Some r) ->
  exists dt t ms,
    dtparser_isoparse L (get obj "ts") = Ok dt /\
    new_times L dt = Ok t /\
    py_int (int_text L) (py_or (py_or (get obj "ms_played") (get obj "msPlayed")) (JInt 0))
      = Ok ms /\
    0 < ms /\
    played_at_utc r = to_iso (fst t) /\
    played_at_local r = to_iso (snd t) /\
    ms_played r = ms /\
    raw_source r = "streaming_history_new".
Proof.
  unfold ts_format. intros Hr. case_rbind Hr.
  destruct (Z.leb_spec a1 0) as [Hle | Hlt]; [discriminate Hr |].
  injection Hr as <-. simpl. eauto 12.
Qed.

Lemma parse_event_cases L obj r :
  parse_event L obj = Ok (Some r) ->
  (has_key obj "endTime" = true /\ has_key obj "msPlayed" = true /\
   old_format L obj = Ok (Some r)) \/
  (has_key obj "endTime" && has_key obj "msPlayed" = false /\
   has_key obj "ts" = true /\ ts_format L obj = Ok (Some r)).
Proof.
  unfold parse_event. intros Hr.
  destruct (has_key obj "endTime" && has_key obj "msPlayed") eqn:Hold.
  - apply andb_true_iff in Hold. left. tauto.
  - destruct (has_key obj "ts" && _) eqn:Hnew; [| discriminate Hr].
    apply andb_true_iff in Hnew. right. tauto.
Qed.

Lemma parse_event_ms_positive L obj r :
  parse_event L obj = Ok (Some r) -> 0 < ms_played r.
Proof.
  intros Hr. destruct (parse_event_cases _ _ _ Hr) as [(_ & _ & Ho) | (_ & _ & Hn)].
  - apply old_format_accepts in Ho as (dt & t & ms & _ & _ & _ & Hms & ->). exact Hms.
  - apply ts_format_accepts in Hn as (dt & t & ms & _ & _ & _ & Hms & _ & _ & -> & _).
    exact Hms.
Qed.

(** The two records of the specification's examples. *)
Example parse_event_old_record :
  parse_event Ref.libs Sample.old_record =
  Ok (Some {| played_at_utc := "2023-05-01T08:00:00+00:00";
              played_at_local := "2023-05-01T10:00:00+02:00";
              track_name := JStr "A"; artist_name := JStr "B"; album_name := JNull;
              ms_played := 120000; platform := JNull; content_type := "music";
              raw_source := "streaming_history_old" |}).
Proof. vm_compute. reflexivity. Qed.

Example parse_event_new_record :
  parse_event Ref.libs Sample.new_record =
  Ok (Some {| played_at_utc := "2023-05-01T08:00:00+00:00";
              played_at_local := "2023-05-01T10:00:00+02:00";
              track_name := JStr "C"; artist_name := JNull; album_name := JNull;
              ms_played := 60000; platform := JNull; content_type := "podcast";
              raw_source := "streaming_history_new" |}).
Proof. vm_compute. reflexivity. Qed.

(** [msPlayed: 0] and [ms_played: -5] are turned down. *)
Example parse_event_not_played :
  parse_event Ref.libs Sample.zero_record = Ok None /\
  parse_event Ref.libs Sample.negative_record = Ok None.
Proof. split; vm_compute; reflexivity. Qed.

Lemma raw_source_old_format L obj r :
  old_format L obj = Ok (Some r) -> raw_source r = "streaming_history_old".
Proof.
  intros Ho. apply old_format_accepts in Ho as (dt & t & ms & _ & _ & _ & _ & ->).
  reflexivity.
Qed.

Lemma raw_source_ts_format L obj r :
  ts_format L obj = Ok (Some r) -> raw_source r = "streaming_history_new".
Proof.
  intros Hn. apply ts_format_accepts in Hn. destruct Hn as (dt & t & ms & H).
  tauto.
Qed.

Lemma collect_rows_ms_positive L data rows :
  collect_rows L data = Ok rows -> Forall (fun r => 0 < ms_played r) rows.
Proof.
  revert rows. induction data as [| v data IH]; simpl; intros rows Hc.
  - injection Hc as <-. constructor.
  - destruct v; try (apply IH; exact Hc).
    case_rbind Hc. injection Hc as <-.
    destruct a as [r |]; [| apply IH; reflexivity].
    constructor; [eapply parse_event_ms_positive; eassumption | apply IH; reflexivity].
Qed.

Lemma file_rows_ms_positive H L f rows :
  file_rows H L f = Ok rows -> Forall (fun r => 0 < ms_played r) rows.
Proof.
  unfold file_rows. intros Hf.
  destruct (read_json H (content f)) as [[] |];
    try (injection Hf as <-; constructor).
  eapply collect_rows_ms_positive; eassumption.
Qed.

(** ** The store *)

Lemma insert_events_imports d rows h :
  imports (fst (insert_events d rows h)) = imports d /\
  imports_seq (fst (insert_events d rows h)) = imports_seq d.
Proof.
  revert d. induction rows as [| r rows IH]; intros d; simpl; [tauto |].
  unfold insert_event. destruct (bind_row r); simpl; [| tauto].
  destruct (IH (event_added d r h)) as [-> ->]. tauto.
Qed.

Lemma insert_events_done d rows h d' :
  insert_events d rows h = (d', None) ->
  events d' = (events d ++ number_events (events_seq d) rows h)%list.
Proof.
  revert d. induction rows as [| r rows IH]; intros d; simpl.
  - intros [= <-]. now rewrite app_nil_r.
  - unfold insert_event. destruct (bind_row r); simpl; [| discriminate].
    intros Hi. rewrite (IH _ Hi). simpl. now rewrite <- app_assoc.
Qed.

(** Every event an [executemany] leaves behind, whole or cut short, is one
    of its rows and carries the file's hash. *)
Lemma insert_events_added d rows h :
  exists added,
    events (fst (insert_events d rows h)) = (events d ++ added)%list /\
    Forall (fun e => In (event_row e) rows /\ source_file_hash e = h) added.
Proof.
  revert d. induction rows as [| r rows IH]; intros d; simpl.
  - exists []. split; [now rewrite app_nil_r | constructor].
  - unfold insert_event. destruct (bind_row r); simpl.
    + destruct (IH (event_added d r h)) as (added & -> & Hall). simpl.
      exists ({| event_id := events_seq d + 1; event_row := r; source_file_hash := h |}
                :: added).
      split; [now rewrite <- app_assoc |].
      constructor; [simpl; auto |].
      eapply Forall_impl; [exact Hall |]. simpl. intros e [? ?]. auto.
    + exists []. split; [now rewrite app_nil_r | constructor].
Qed.

Lemma length_number_events seq rows h :
  List.length (number_events seq rows h) = List.length rows.
Proof.
  revert seq. induction rows as [| r rows IH]; intros seq; simpl; [| rewrite IH]; reflexivity.
Qed.


Lemma hash_recorded_imports_of d h :
  hash_recorded d h = false <-> imports_of d h = [].
Proof.
  unfold hash_recorded, imports_of.
  induction (imports d) as [| r l IH]; simpl; [tauto |].
  destruct (String.eqb (file_hash r) h); simpl; [split; intros Hx; discriminate Hx | exact IH].
Qed.

Lemma hash_recorded_import_added d at_ root p h n h' :
  hash_recorded (import_added d at_ root p h n) h' =
  hash_recorded d h' || String.eqb h h'.
Proof.
  unfold hash_recorded, import_added. simpl.
  rewrite existsb_app. simpl. now rewrite orb_false_r.
Qed.

(** ** One file *)

Section OneFile.

Variables (H : host) (L : dateutil) (clock : Z -> string) (root : string).

Lemma process_file_skips c n f :
  already_imported c (sha256 H (content f)) = true ->
  process_file H L clock root c n f = ([], Ok (c, skip_counted n)).
Proof. intros Hs. unfold process_file. cbv zeta. rewrite Hs. reflexivity. Qed.

Lemma process_file_raises c n f e :
  already_imported c (sha256 H (content f)) = false ->
  file_rows H L f = Raise e ->
  process_file H L clock root c n f = ([], Raise e).
Proof. intros Hs Hr. unfold process_file. cbv zeta. rewrite Hs, Hr. reflexivity. Qed.

(** A file that is not yet imported and whose rows are collected: either
    [executemany] fails, or the path cannot be bound, or the statements run
    and the unit is committed. *)
Lemma process_file_imports c n f rows :
  already_imported c (sha256 H (content f)) = false ->
  file_rows H L f = Ok rows ->
  let h := sha256 H (content f) in
  let d1 := fst (insert_events (current c) rows h) in
  let c1 := {| durable := durable c; txn := Some d1 |} in
  let d2 := unit_added H clock root (current c) n f rows in
  let c2 := {| durable := durable c; txn := Some d2 |} in
  let c3 := {| durable := d2; txn := None |} in
  match snd (insert_events (current c) rows h) with
  | Some e => process_file H L clock root c n f = ([c1], Raise e)
  | None =>
      match bind_import root (path f) with
      | Raise e =>
          process_file H L clock root c n f =
          ((match rows with [] => [] | _ => [c1] end ++ [c1])%list, Raise e)
      | Ok _ =>
          process_file H L clock root c n f =
          ((match rows with [] => [] | _ => [c1] end ++ [c1; c2; c3])%list,
           Ok (c3, import_counted n rows))
      end
  end.
Proof.
  intros Hnew Hrows. cbv zeta.
  unfold process_file. cbv zeta. rewrite Hnew, Hrows.
  assert (Hrec : hash_recorded
                   (fst (insert_events (current c) rows (sha256 H (content f))))
                   (sha256 H (content f)) = false).
  { unfold already_imported in Hnew. unfold hash_recorded in *.
    now rewrite (proj1 (insert_events_imports _ _ _)). }
  unfold file_stmts, unit_added.
  destruct (insert_events (current c) rows (sha256 H (content f))) as [d1 e] eqn:Hins.
  cbn [fst snd] in *.
  destruct rows as [| r rows].
  - simpl in Hins. injection Hins as <- <-.
    cbn [app exec_stmts exec].
    destruct (bind_import root (path f)) as [[] | e]; [| reflexivity].
    cbn [exec_stmts exec current txn durable]. unfold insert_import. rewrite Hrec.
    reflexivity.
  - cbn [app exec_stmts exec]. rewrite Hins.
    destruct e as [e |]; [reflexivity |].
    cbn [exec_stmts exec current txn durable].
    destruct (bind_import root (path f)) as [[] | e]; [| reflexivity].
    cbn [exec_stmts exec current txn durable]. unfold insert_import. rewrite Hrec.
    reflexivity.
Qed.

End OneFile.

(** ** The loop over the files *)

Section Loop.

Variables (H : host) (L : dateutil) (clock : Z -> string) (root : string).

(** What one turn of the loop can do to the committed database: every
    state it passes through has the committed database it started with,
    except the last one of a turn that ends well. *)
Lemma process_file_outcome c n f tr r :
  process_file H L clock root c n f = (tr, r) ->
  Forall (fun s => durable s = durable c \/ exists n', r = Ok (s, n')) tr /\
  forall c' n', r = Ok (c', n') ->
    (already_imported c (sha256 H (content f)) = true /\
     c' = c /\ n' = skip_counted n /\ tr = []) \/
    (exists rows,
       already_imported c (sha256 H (content f)) = false /\
       file_rows H L f = Ok rows /\
       snd (insert_events (current c) rows (sha256 H (content f))) = None /\
       c' = {| durable := unit_added H clock root (current c) n f rows; txn := None |} /\
       n' = import_counted n rows /\
       bind_import root (path f) = Ok tt).
Proof.
  intros Hp.
  destruct (already_imported c (sha256 H (content f))) eqn:Hseen.
  { rewrite (process_file_skips H L clock root c n f Hseen) in Hp.
    injection Hp as <- <-. split; [constructor |].
    intros c' n' [= <- <-]. left. auto. }
  destruct (file_rows H L f) as [rows | e] eqn:Hrows.
  2:{ rewrite (process_file_raises H L clock root c n f e Hseen Hrows) in Hp.
      injection Hp as <- <-. split; [constructor | discriminate]. }
  pose proof (process_file_imports H L clock root c n f rows Hseen Hrows) as Hi.
  cbv zeta in Hi.
  destruct (snd (insert_events (current c) rows (sha256 H (content f)))) as [e |] eqn:Hsnd.
  { rewrite Hi in Hp. injection Hp as <- <-.
    split; [repeat constructor | discriminate]. }
  destruct (bind_import root (path f)) as [[] | e] eqn:Hbind.
  2:{ rewrite Hi in Hp. injection Hp as <- <-.
      split; [| discriminate].
      apply Forall_app. split; [destruct rows |]; repeat constructor. }
  rewrite Hi in Hp. injection Hp as <- <-. split.
  - apply Forall_app. split.
    + destruct rows; repeat constructor.
    + constructor; [left; reflexivity |].
      constructor; [left; reflexivity |].
      constructor; [right; eexists; reflexivity | constructor].
  - intros c' n' [= <- <-]. right. exists rows. auto 10.
Qed.

Lemma ingest_loop_nil c n :
  ingest_loop H L clock root c n [] = ([], Ok (c, n)).
Proof. reflexivity. Qed.

Lemma ingest_loop_cons c n f rest :
  ingest_loop H L clock root c n (f :: rest) =
  match process_file H L clock root c n f with
  | (tr, Raise e) => (tr, Raise e)
  | (tr, Ok (c', n')) =>
      ((tr ++ fst (ingest_loop H L clock root c' n' rest))%list,
       snd (ingest_loop H L clock root c' n' rest))
  end.
Proof.
  simpl. destruct (process_file H L clock root c n f) as [tr [[c' n'] | e]]; [| reflexivity].
  destruct (ingest_loop H L clock root c' n' rest). reflexivity.
Qed.


Section Invariant.

Variables (B T : conn -> Prop).

Hypothesis file_step :
  forall c n f tr r,
    B c -> process_file H L clock root c n f = (tr, r) ->
    Forall T tr /\ forall c' n', r = Ok (c', n') -> B c'.

(** A property kept by every turn holds during and after the loop. *)
Lemma ingest_loop_invariant files :
  forall c n,
    B c ->
    Forall T (fst (ingest_loop H L clock root c n files)) /\
    forall c' n', snd (ingest_loop H L clock root c n files) = Ok (c', n') -> B c'.
Proof.
  induction files as [| f rest IH]; intros c n Hb.
  - split; [constructor | intros c' n' [= <- <-]; exact Hb].
  - rewrite ingest_loop_cons.
    destruct (process_file H L clock root c n f) as [tr r] eqn:Hp.
    destruct (file_step _ _ _ _ _ Hb Hp) as [Htr Hnext].
    destruct r as [[c1 n1] | e]; cbn [fst snd]; [| split; [exact Htr | discriminate]].
    destruct (IH c1 n1 (Hnext _ _ eq_refl)) as [Hrest Hend].
    split; [apply Forall_app; split; assumption | exact Hend].
Qed.

End Invariant.

End Loop.

Lemma ingest_export_trace H L clock root c files :
  fst (ingest_export H L clock root c files) =
  fst (ingest_loop H L clock root c zero_counters files).
Proof.
  unfold ingest_export, zero_counters.
  destruct (ingest_loop H L clock root c _ files) as [tr [[c' n] | e]]; reflexivity.
Qed.

Lemma ingest_export_ok H L clock root c files c' n :
  snd (ingest_loop H L clock root c zero_counters files) = Ok (c', n) ->
  snd (ingest_export H L clock root c files) =
  Ok (c', {| summary_export_root := root;
             files_found := Z.of_nat (List.length files);
             new_files_imported := new_files n;
             files_skipped := skipped n;
             summary_rows_inserted := rows_total n |}).
Proof.
  unfold ingest_export, zero_counters.
  destruct (ingest_loop H L clock root c _ files) as [tr [[c1 n1] | e]]; cbn [snd];
    [intros [= <- <-]; reflexivity | discriminate].
Qed.

Lemma ingest_export_ok_inv H L clock root c files c' sm :
  snd (ingest_export H L clock root c files) = Ok (c', sm) ->
  exists n,
    snd (ingest_loop H L clock root c zero_counters files) = Ok (c', n) /\
    sm = {| summary_export_root := root;
            files_found := Z.of_nat (List.length files);
            new_files_imported := new_files n;
            files_skipped := skipped n;
            summary_rows_inserted := rows_total n |}.
Proof.
  unfold ingest_export, zero_counters.
  destruct (ingest_loop H L clock root c _ files) as [tr [[c1 n1] | e]]; cbn [snd];
    [intros [= <- <-]; eauto | discriminate].
Qed.

(** ** Rows and provenance are committed together *)





(** *** The committed database is made of whole units *)












(** ** A second run finds every file imported *)

Section Idempotence.

Variables (H : host) (L : dateutil) (root : string).

Lemma process_file_records clock c n f tr c' n' :
  process_file H L clock root c n f = (tr, Ok (c', n')) ->
  already_imported c' (sha256 H (content f)) = true /\
  forall h, already_imported c h = true -> already_imported c' h = true.
Proof.
  intros Hp.
  destruct (process_file_outcome _ _ _ _ _ _ _ _ _ Hp) as [_ Hend].
  destruct (Hend _ _ eq_refl) as [(Hseen & -> & _) | (rows & _ & _ & _ & -> & _)];
    [auto |].
  unfold already_imported, unit_added. cbn [current txn durable].
  split; [| intros h Hh]; rewrite hash_recorded_import_added.
  - rewrite String.eqb_refl. apply orb_true_r.
  - unfold hash_recorded in *.
    rewrite (proj1 (insert_events_imports _ _ _)), Hh. reflexivity.
Qed.

Lemma ingest_loop_records clock files :
  forall c n c' n',
    snd (ingest_loop H L clock root c n files) = Ok (c', n') ->
    (forall h, already_imported c h = true -> already_imported c' h = true) /\
    Forall (fun f => already_imported c' (sha256 H (content f)) = true) files.
Proof.
  induction files as [| f rest IH]; intros c n c' n' Hrun.
  - injection Hrun as <- <-. split; [auto | constructor].
  - rewrite ingest_loop_cons in Hrun.
    destruct (process_file H L clock root c n f) as [tr [[c1 n1] | e]] eqn:Hp;
      cbn [snd] in Hrun; [| discriminate].
    destruct (process_file_records _ _ _ _ _ _ _ Hp) as [Hf Hmono].
    destruct (IH _ _ _ _ Hrun) as [Hmono' Hrest].
    split; [auto |]. constructor; auto.
Qed.

Lemma ingest_loop_all_skipped clock files :
  forall c n,
    Forall (fun f => already_imported c (sha256 H (content f)) = true) files ->
    ingest_loop H L clock root c n files =
    ([], Ok (c, {| new_files := new_files n;
                   skipped := skipped n + Z.of_nat (List.length files);
                   rows_total := rows_total n |})).
Proof.
  induction files as [| f rest IH]; intros c n Hall.
  - rewrite ingest_loop_nil. destruct n. cbn. now rewrite Z.add_0_r.
  - inversion Hall as [| ? ? Hf Hrest]; subst.
    rewrite ingest_loop_cons, (process_file_skips H L clock root c n f Hf), (IH _ _ Hrest).
    cbn [fst snd app skip_counted new_files skipped rows_total List.length].
    do 3 f_equal. f_equal. lia.
Qed.

End Idempotence.

(** C3. When a run of [ingest_export] returns, a second run on the
    resulting connection over the same files sends no statement at all (no
    event and no import record is added, the connection is unchanged),
    imports no file and skips as many files as the first run found. *)
Theorem ingest_idempotent H L clock clock2 root c files c1 sm1 :
  snd (ingest_export H L clock root c files) = Ok (c1, sm1) ->
  ingest_export H L clock2 root c1 files =
  ([], Ok (c1, {| summary_export_root := root;
                  files_found := files_found sm1;
                  new_files_imported := 0;
                  files_skipped := files_found sm1;
                  summary_rows_inserted := 0 |})).
Proof.
  intros Hrun.
  apply ingest_export_ok_inv in Hrun as (n & Hloop & ->).
  destruct (ingest_loop_records _ _ _ _ _ _ _ _ _ Hloop) as [_ Hall].
  unfold ingest_export.
  rewrite (ingest_loop_all_skipped H L root clock2 files c1 _ Hall).
  reflexivity.
Qed.

(** The sample files, run twice on a new store. *)
Lemma ingest_idempotent_witness :
  exists c1 sm1,
    snd (ingest_export Sample.machine Ref.libs Sample.clock "/export"
           (connect empty_db) Sample.files) = Ok (c1, sm1) /\
    ingest_export Sample.machine Ref.libs Sample.clock "/export" c1 Sample.files =
    ([], Ok (c1, {| summary_export_root := "/export";
                    files_found := files_found sm1;
                    new_files_imported := 0;
                    files_skipped := files_found sm1;
                    summary_rows_inserted := 0 |})).
Proof.
  eexists. eexists.
  match goal with
  | |- ?A /\ _ => assert (Hrun : A) by (vm_compute; reflexivity)
  end.
  split; [exact Hrun |].
  exact (ingest_idempotent Sample.machine Ref.libs Sample.clock Sample.clock
           "/export" (connect empty_db) Sample.files _ _ Hrun).
Defined.

(** ** Stored play times are positive *)

Lemma positive_insert_events d rows h :
  positive_events d ->
  Forall (fun r => 0 < ms_played r) rows ->
  positive_events (fst (insert_events d rows h)).
Proof.
  unfold positive_events. intros Hd Hrows.
  destruct (insert_events_added d rows h) as (added & -> & Hadded).
  apply Forall_app. split; [exact Hd |].
  eapply Forall_impl; [exact Hadded |]. cbv beta. intros e [Hin _].
  rewrite Forall_forall in Hrows. apply Hrows, list_elem_of_In, Hin.
Qed.

Lemma process_file_positive H L clock root c n f tr r :
  positive_events (durable c) /\ positive_events (current c) ->
  process_file H L clock root c n f = (tr, r) ->
  Forall (fun s => positive_events (durable s) /\ positive_events (current s)) tr /\
  forall c' n', r = Ok (c', n') ->
    positive_events (durable c') /\ positive_events (current c').
Proof.
  intros [Hd Hc] Hp.
  destruct (already_imported c (sha256 H (content f))) eqn:Hseen.
  { rewrite (process_file_skips H L clock root c n f Hseen) in Hp.
    injection Hp as <- <-. split; [constructor |].
    intros c' n' [= <- <-]. auto. }
  destruct (file_rows H L f) as [rows | e] eqn:Hrows.
  2:{ rewrite (process_file_raises H L clock root c n f e Hseen Hrows) in Hp.
      injection Hp as <- <-. split; [constructor | discriminate]. }
  pose proof (process_file_imports H L clock root c n f rows Hseen Hrows) as Hi.
  cbv zeta in Hi.
  pose proof (positive_insert_events _ _ (sha256 H (content f)) Hc
                (file_rows_ms_positive _ _ _ _ Hrows)) as H1.
  assert (H2 : positive_events (unit_added H clock root (current c) n f rows)) by exact H1.
  destruct (snd (insert_events (current c) rows (sha256 H (content f)))) as [e |].
  { rewrite Hi in Hp. injection Hp as <- <-.
    split; [| discriminate]. repeat constructor; assumption. }
  destruct (bind_import root (path f)) as [[] | e].
  2:{ rewrite Hi in Hp. injection Hp as <- <-.
      split; [| discriminate].
      apply Forall_app. split; [destruct rows |]; repeat constructor; assumption. }
  rewrite Hi in Hp. injection Hp as <- <-. split.
  - apply Forall_app. split; [destruct rows |]; repeat constructor; assumption.
  - intros c' n' [= <- <-]. split; assumption.
Qed.

(** C4. Every accepted row has [ms_played > 0], in the old format and in
    the [ts] format, and a run of [ingest_export] keeps every stored event's
    [ms_played] positive, in the committed database and in the open
    transaction, after each of its statements. *)
Theorem stored_ms_played_positive H L clock root c files s :
  positive_events (durable c) ->
  positive_events (current c) ->
  In s (fst (ingest_export H L clock root c files)) ->
  (forall obj r, parse_event L obj = Ok (Some r) -> 0 < ms_played r) /\
  positive_events (durable s) /\
  positive_events (current s).
Proof.
  intros Hd Hc Hin. split; [intros obj r; apply parse_event_ms_positive |].
  rewrite ingest_export_trace in Hin.
  destruct (ingest_loop_invariant H L clock root _ _
              (process_file_positive H L clock root) files c zero_counters (conj Hd Hc))
    as [Hall _].
  rewrite Forall_forall in Hall. apply Hall, list_elem_of_In, Hin.
Qed.

(** The sample run: the files hold a record with [msPlayed: 0] and one
    with [ms_played: -5]; the state taken is the last one. *)
Lemma stored_ms_played_positive_witness :
  (forall obj r, parse_event Ref.libs obj = Ok (Some r) -> 0 < ms_played r) /\
  positive_events
    (durable (List.last (fst (ingest_export Sample.machine Ref.libs Sample.clock "/export"
                           (connect empty_db) Sample.files)) (connect empty_db))) /\
  positive_events
    (current (List.last (fst (ingest_export Sample.machine Ref.libs Sample.clock "/export"
                           (connect empty_db) Sample.files)) (connect empty_db))).
Proof.
  apply (stored_ms_played_positive Sample.machine Ref.libs Sample.clock "/export"
           (connect empty_db) Sample.files).
  - constructor.
  - constructor.
  - vm_compute. do 13 right. left. reflexivity.
Defined.

(** ** A file that is not a JSON array *)

Lemma file_rows_not_array H L f :
  is_array (read_json H (content f)) = false -> file_rows H L f = Ok [].
Proof.
  unfold file_rows, is_array.
  destruct (read_json H (content f)) as [[] |]; try reflexivity. discriminate.
Qed.

Lemma imports_of_import_added d at_ root p h n h' :
  imports_of (import_added d at_ root p h n) h' =
  (imports_of d h' ++
   if String.eqb h h'
   then [{| import_id := imports_seq d + 1; imported_at := at_; export_root := root;
            file_path := p; file_hash := h; rows_inserted := n |}]
   else [])%list.
Proof.
  unfold imports_of, import_added. cbn [imports].
  rewrite List.filter_app. cbn [List.filter file_hash].
  now destruct (String.eqb h h').
Qed.

(** C7 (as amended).  A file whose content is not valid JSON, or is JSON
    but not an array, and whose path (with the export root) is text that the
    store can take, never stops the loop.  When its hash is not yet recorded
    it gets the insertion of one import record with [rows_inserted = 0] and
    the commit: no event is added, the record is the only one of its hash, and
    the loop goes on with the files that follow.  When its hash is recorded
    already (the same bytes were imported before), it is skipped without a
    statement, so without a record of its own, and the loop goes on as well. *)
Theorem bad_file_recorded_empty H L clock root c n f rest :
  is_array (read_json H (content f)) = false ->
  bind_import root (path f) = Ok tt ->
  let h := sha256 H (content f) in
  let record :=
    {| import_id := imports_seq (current c) + 1; imported_at := clock (new_files n);
       export_root := root; file_path := path f; file_hash := h; rows_inserted := 0 |} in
  let d' := import_added (current c) (clock (new_files n)) root (path f) h 0 in
  let c0 := {| durable := durable c; txn := Some (current c) |} in
  let c' := {| durable := d'; txn := None |} in
  let n' := {| new_files := new_files n + 1; skipped := skipped n;
               rows_total := rows_total n + 0 |} in
  if already_imported c h then
    imports_of (current c) h <> [] /\
    process_file H L clock root c n f = ([], Ok (c, skip_counted n)) /\
    ingest_loop H L clock root c n (f :: rest) =
      ingest_loop H L clock root c (skip_counted n) rest
  else
    process_file H L clock root c n f =
      ([c0; {| durable := durable c; txn := Some d' |}; c'], Ok (c', n')) /\
    events d' = events (current c) /\
    imports d' = (imports (current c) ++ [record])%list /\
    imports_of d' h = [record] /\
    ingest_loop H L clock root c n (f :: rest) =
      ((c0 :: {| durable := durable c; txn := Some d' |} :: c'
          :: fst (ingest_loop H L clock root c' n' rest)),
       snd (ingest_loop H L clock root c' n' rest)).
Proof.
  intros Hbad Hbind h record d' c0 c' n'.
  destruct (already_imported c h) eqn:Hnew.
  - pose proof (process_file_skips H L clock root c n f Hnew) as Hp.
    split; [| split; [exact Hp |]].
    + intros Hnone. apply hash_recorded_imports_of in Hnone.
      unfold already_imported in Hnew. congruence.
    + rewrite ingest_loop_cons, Hp.
      destruct (ingest_loop H L clock root c (skip_counted n) rest). reflexivity.
  - pose proof (process_file_imports H L clock root c n f [] Hnew
                  (file_rows_not_array H L f Hbad)) as Hp.
    cbv zeta in Hp. rewrite Hbind in Hp. cbn [insert_events fst snd app] in Hp.
    change (unit_added H clock root (current c) n f []) with d' in Hp.
    change (import_counted n []) with n' in Hp. fold c0 c' in Hp.
    split; [exact Hp |].
    split; [reflexivity |].
    split; [reflexivity |].
    split.
    + unfold d'. rewrite imports_of_import_added, String.eqb_refl.
      apply hash_recorded_imports_of in Hnew. fold h in Hnew. rewrite Hnew. reflexivity.
    + rewrite ingest_loop_cons, Hp. reflexivity.
Qed.

(** The sample file holding [not valid json], met on a new store and
    followed by another file. *)
Lemma bad_file_recorded_empty_witness :
  let c := connect empty_db in
  let record :=
    {| import_id := 1; imported_at := Sample.clock 0; export_root := "/export";
       file_path := path Sample.broken; file_hash := "not valid json";
       rows_inserted := 0 |} in
  let d' := import_added empty_db (Sample.clock 0) "/export" (path Sample.broken)
              "not valid json" 0 in
  let c0 := {| durable := empty_db; txn := Some empty_db |} in
  let c' := {| durable := d'; txn := None |} in
  let n' := {| new_files := 1; skipped := 0; rows_total := 0 |} in
  process_file Sample.machine Ref.libs Sample.clock "/export" c zero_counters Sample.broken =
    ([c0; {| durable := empty_db; txn := Some d' |}; c'], Ok (c', n')) /\
  events d' = [] /\
  imports d' = [record] /\
  imports_of d' "not valid json" = [record] /\
  ingest_loop Sample.machine Ref.libs Sample.clock "/export" c zero_counters
    [Sample.broken; Sample.endsong] =
    ((c0 :: {| durable := empty_db; txn := Some d' |} :: c'
        :: fst (ingest_loop Sample.machine Ref.libs Sample.clock "/export" c' n'
                  [Sample.endsong])),
     snd (ingest_loop Sample.machine Ref.libs Sample.clock "/export" c' n'
            [Sample.endsong])).
Proof.
  exact (bad_file_recorded_empty Sample.machine Ref.libs Sample.clock "/export"
           (connect empty_db) zero_counters Sample.broken [Sample.endsong]
           eq_refl eq_refl).
Defined.

(** C7 as the specification words it does not hold of two kinds of file.
    A second file with the same undecodable bytes as one already imported is
    skipped: no statement is sent for it, and the only import record of the
    run carries the first file's path.  And an undecodable file whose name is
    not UTF-8 stops the run: its path cannot be bound, [ingest_export] raises
    and the file that follows is never read. *)
Lemma bad_file_recorded_empty_counterexample :
  (is_array (read_json Sample.machine (content Sample.broken_copy)) = false /\
   exists c1,
     snd (process_file Sample.machine Ref.libs Sample.clock "/export"
            (connect empty_db) zero_counters Sample.broken) =
       Ok (c1, {| new_files := 1; skipped := 0; rows_total := 0 |}) /\
     process_file Sample.machine Ref.libs Sample.clock "/export" c1
       {| new_files := 1; skipped := 0; rows_total := 0 |} Sample.broken_copy =
       ([], Ok (c1, {| new_files := 1; skipped := 1; rows_total := 0 |})) /\
     map file_path (imports (durable c1)) = [path Sample.broken] /\
     snd (ingest_export Sample.machine Ref.libs Sample.clock "/export"
            (connect empty_db) [Sample.broken; Sample.broken_copy]) =
       Ok (c1, {| summary_export_root := "/export"; files_found := 2;
                  new_files_imported := 1; files_skipped := 1;
                  summary_rows_inserted := 0 |})) /\
  (is_array (read_json Sample.machine (content Sample.broken_latin1)) = false /\
   ingest_export Sample.machine Ref.libs Sample.clock "/export"
     (connect empty_db) [Sample.broken_latin1; Sample.endsong] =
     ([{| durable := empty_db; txn := Some empty_db |}], Raise UnicodeEncodeError)).
Proof.
  split.
  - split; [reflexivity |]. eexists.
    split; [vm_compute; reflexivity |].
    split; [vm_compute; reflexivity |].
    split; vm_compute; reflexivity.
  - split; [reflexivity |]. vm_compute. reflexivity.
Qed.

(** ** One import record for each file hash *)

Lemma unique_hashes_same_imports d d' :
  imports d' = imports d -> unique_hashes d -> unique_hashes d'.
Proof. unfold unique_hashes, imports_of. intros ->. auto. Qed.

Lemma unique_hashes_import_added d at_ root p h n :
  hash_recorded d h = false ->
  unique_hashes d ->
  unique_hashes (import_added d at_ root p h n).
Proof.
  intros Hnew Hu h'. rewrite imports_of_import_added, length_app.
  destruct (String.eqb h h') eqn:Heq.
  - apply String.eqb_eq in Heq. subst h'.
    apply hash_recorded_imports_of in Hnew. rewrite Hnew. cbn. lia.
  - specialize (Hu h'). cbn. lia.
Qed.

Lemma exec_unique_hashes c s :
  unique_hashes (durable c) /\ unique_hashes (current c) ->
  unique_hashes (durable (fst (exec c s))) /\ unique_hashes (current (fst (exec c s))).
Proof.
  intros [Hd Hc]. destruct s as [rows h | root p | at_ root p h n |]; cbn [exec].
  - destruct (insert_events (current c) rows h) as [d e] eqn:Hi.
    cbn [fst durable current txn]. split; [exact Hd |].
    apply (unique_hashes_same_imports (current c)); [| exact Hc].
    pose proof (proj1 (insert_events_imports (current c) rows h)) as Himp.
    now rewrite Hi in Himp.
  - cbn [fst durable current txn]. auto.
  - unfold insert_import. destruct (hash_recorded (current c) h) eqn:Hrec;
      cbn [fst durable current txn]; split; auto.
    now apply unique_hashes_import_added.
  - cbn [fst durable current txn]. auto.
Qed.

Lemma run_stmts_unique_hashes ss :
  forall c,
    unique_hashes (durable c) /\ unique_hashes (current c) ->
    unique_hashes (durable (run_stmts c ss)) /\ unique_hashes (current (run_stmts c ss)).
Proof.
  induction ss as [| s ss IH]; intros c Hc; [exact Hc |].
  apply (IH (fst (exec c s))), exec_unique_hashes, Hc.
Qed.

(** C9. Whatever statements a store created by [init_db] has received,
    it holds at most one import record for each file hash, committed or in
    the open transaction; and of two [INSERT INTO imports] with the same hash,
    the second is refused with [IntegrityError] and changes no table. *)
Theorem file_hash_unique ss at_ root p h n at2 root2 p2 n2 h' :
  let c := run_stmts (connect empty_db) ss in
  let c1 := fst (exec c (InsertImport at_ root p h n)) in
  (List.length (imports_of (durable c) h') <= 1)%nat /\
  (List.length (imports_of (current c) h') <= 1)%nat /\
  exec c1 (InsertImport at2 root2 p2 h n2) =
    ({| durable := durable c1; txn := Some (current c1) |}, Some IntegrityError).
Proof.
  intros c c1.
  assert (Hstart : unique_hashes (durable (connect empty_db)) /\
                   unique_hashes (current (connect empty_db))).
  { split; intros k; cbn; lia. }
  destruct (run_stmts_unique_hashes ss _ Hstart) as [Hd Hc].
  split; [apply Hd |]. split; [apply Hc |].
  assert (Hrec : hash_recorded (current c1) h = true).
  { unfold c1. cbn [exec]. unfold insert_import.
    destruct (hash_recorded (current c) h) eqn:Hseen; cbn [fst current txn].
    - exact Hseen.
    - rewrite hash_recorded_import_added, String.eqb_refl. apply orb_true_r. }
  cbn [exec]. unfold insert_import. rewrite Hrec. reflexivity.
Qed.

(** ** The two absent-offset conventions *)

Lemma checked_ok w w' : checked w = Ok w' -> w' = w.
Proof.
  unfold checked. destruct (_ && _); [intros [= <-]; reflexivity | discriminate].
Qed.

Lemma astimezone_ok dt z dt' :
  astimezone dt z = Ok dt' ->
  dt' = {| wall := fst (fromutc z (wall dt - offset_of dt));
           fold := snd (fromutc z (wall dt - offset_of dt));
           tz := Some z |}.
Proof.
  unfold astimezone. intros Ha.
  destruct (checked (wall dt - offset_of dt)) as [u |] eqn:Hu; [| discriminate].
  apply checked_ok in Hu. subst u. cbn [rbind] in Ha.
  destruct (fromutc z (wall dt - offset_of dt)) as [w f].
  destruct (checked w) as [w' |] eqn:Hw; [| discriminate].
  apply checked_ok in Hw. subst w'. injection Ha as <-. reflexivity.
Qed.

Lemma old_times_ok L dt t :
  old_times L dt = Ok t ->
  let local :=
    match tz dt with
    | None => (wall dt, fold dt)
    | Some z => fromutc (PARIS L) (wall dt - utcoffset z (wall dt) (fold dt))
    end in
  snd t = {| wall := fst local; fold := snd local; tz := Some (PARIS L) |} /\
  fst t = {| wall := fst local - utcoffset (PARIS L) (fst local) (snd local);
             fold := false; tz := Some UTC |}.
Proof.
  unfold old_times. intros Ht. cbv zeta.
  destruct (match tz dt with
            | Some _ => astimezone dt (PARIS L)
            | None => Ok (replace_tzinfo dt (PARIS L))
            end) as [loc |] eqn:Hloc; [| discriminate].
  cbn [rbind] in Ht.
  destruct (astimezone loc UTC) as [utc |] eqn:Hutc; [| discriminate].
  injection Ht as <-. cbn [fst snd].
  apply astimezone_ok in Hutc.
  assert (Hl : loc = {| wall := fst (match tz dt with
                                     | None => (wall dt, fold dt)
                                     | Some z => fromutc (PARIS L)
                                                   (wall dt - utcoffset z (wall dt) (fold dt))
                                     end);
                        fold := snd (match tz dt with
                                     | None => (wall dt, fold dt)
                                     | Some z => fromutc (PARIS L)
                                                   (wall dt - utcoffset z (wall dt) (fold dt))
                                     end);
                        tz := Some (PARIS L) |}).
  { destruct (tz dt) as [z |] eqn:Hz.
    - apply astimezone_ok in Hloc. rewrite Hloc. unfold offset_of. rewrite Hz. reflexivity.
    - injection Hloc as <-. reflexivity. }
  split; [exact Hl |].
  rewrite Hutc, Hl. reflexivity.
Qed.

Lemma new_times_naive L dt t :
  tz dt = None ->
  new_times L dt = Ok t ->
  fst t = {| wall := wall dt; fold := false; tz := Some UTC |} /\
  snd t = {| wall := fst (fromutc (PARIS L) (wall dt));
             fold := snd (fromutc (PARIS L) (wall dt));
             tz := Some (PARIS L) |}.
Proof.
  unfold new_times. intros Hz Ht. rewrite Hz in Ht.
  destruct (astimezone (replace_tzinfo dt UTC) UTC) as [utc |] eqn:Hutc; [| discriminate].
  cbn [rbind] in Ht.
  destruct (astimezone utc (PARIS L)) as [loc |] eqn:Hloc; [| discriminate].
  injection Ht as <-. cbn [fst snd].
  apply astimezone_ok in Hutc. apply astimezone_ok in Hloc.
  assert (Hu : utc = {| wall := wall dt; fold := false; tz := Some UTC |}).
  { rewrite Hutc. cbn. now rewrite Z.sub_0_r. }
  split; [exact Hu |].
  rewrite Hloc, Hu. cbn. now rewrite Z.sub_0_r.
Qed.

(** C5. In an accepted row of the old format, a parsed [endTime] without
    offset is printed as it stands with the Paris offset of that wall time,
    one with an offset is first converted to Paris time, and the UTC value is
    the Paris-local value minus its Paris offset.  In an accepted row of the
    [ts] format, a timestamp without offset is printed as it stands as UTC,
    and the Paris-local value is the conversion of that UTC instant. *)
Theorem timezone_defaults L obj r s dt :
  parse_event L obj = Ok (Some r) ->
  (raw_source r = "streaming_history_old" ->
   get obj "endTime" = JStr s -> parser_parse L s = Ok dt ->
   let local :=
     match tz dt with
     | None => (wall dt, fold dt)
     | Some z => fromutc (PARIS L) (wall dt - utcoffset z (wall dt) (fold dt))
     end in
   let off := utcoffset (PARIS L) (fst local) (snd local) in
   played_at_local r = format_wall (fst local) ++ format_offset off /\
   played_at_utc r = format_wall (fst local - off) ++ "+00:00") /\
  (raw_source r = "streaming_history_new" ->
   get obj "ts" = JStr s -> parser_isoparse L s = Ok dt -> tz dt = None ->
   let local := fromutc (PARIS L) (wall dt) in
   played_at_utc r = format_wall (wall dt) ++ "+00:00" /\
   played_at_local r =
     format_wall (fst local) ++ format_offset (utcoffset (PARIS L) (fst local) (snd local))).
Proof.
  intros Hr.
  destruct (parse_event_cases _ _ _ Hr) as [(_ & _ & Ho) | (_ & _ & Hn)].
  - split.
    + intros _ Hs Hdt.
      apply old_format_accepts in Ho as (dt' & t & ms & Hp & Ht & _ & _ & ->).
      rewrite Hs in Hp. cbn [dtparser_parse] in Hp. rewrite Hdt in Hp.
      injection Hp as <-.
      destruct (old_times_ok _ _ _ Ht) as [Hl Hu]. cbv zeta in Hl, Hu |- *.
      cbn [played_at_local played_at_utc]. rewrite Hl, Hu. split; reflexivity.
    + intros Hsrc. rewrite (raw_source_old_format _ _ _ Ho) in Hsrc. discriminate.
  - split.
    + intros Hsrc. rewrite (raw_source_ts_format _ _ _ Hn) in Hsrc. discriminate.
    + intros _ Hs Hdt Hz.
      apply ts_format_accepts in Hn as (dt' & t & ms & Hp & Ht & _ & _ & Hu & Hl & _).
      rewrite Hs in Hp. cbn [dtparser_isoparse] in Hp. rewrite Hdt in Hp.
      injection Hp as <-.
      destruct (new_times_naive _ _ _ Hz Ht) as [Hfst Hsnd].
      cbv zeta. rewrite Hu, Hl, Hfst, Hsnd. split; reflexivity.
Qed.

(** The text [2023-05-01T10:00:00], without offset, in the two formats,
    and an old-format text with an offset. *)
Lemma timezone_defaults_witness :
  (exists r,
     parse_event Ref.libs Sample.old_naive = Ok (Some r) /\
     played_at_local r = "2023-05-01T10:00:00+02:00" /\
     played_at_utc r = "2023-05-01T08:00:00+00:00") /\
  (exists r,
     parse_event Ref.libs Sample.ts_naive = Ok (Some r) /\
     played_at_utc r = "2023-05-01T10:00:00+00:00" /\
     played_at_local r = "2023-05-01T12:00:00+02:00") /\
  (exists r,
     parse_event Ref.libs Sample.old_aware = Ok (Some r) /\
     played_at_local r = "2023-12-01T16:00:00+01:00" /\
     played_at_utc r = "2023-12-01T15:00:00+00:00").
Proof.
  split; [| split].
  - eexists.
    match goal with
    | |- ?A /\ _ => assert (Hr : A) by (vm_compute; reflexivity)
    end.
    split; [exact Hr |].
    exact (proj1 (timezone_defaults Ref.libs Sample.old_naive _ "2023-05-01T10:00:00"
                    {| wall := 1682935200; fold := false; tz := None |} Hr)
             eq_refl eq_refl eq_refl).
  - eexists.
    match goal with
    | |- ?A /\ _ => assert (Hr : A) by (vm_compute; reflexivity)
    end.
    split; [exact Hr |].
    exact (proj2 (timezone_defaults Ref.libs Sample.ts_naive _ "2023-05-01T10:00:00"
                    {| wall := 1682935200; fold := false; tz := None |} Hr)
             eq_refl eq_refl eq_refl eq_refl).
  - eexists.
    match goal with
    | |- ?A /\ _ => assert (Hr : A) by (vm_compute; reflexivity)
    end.
    split; [exact Hr |].
    exact (proj1 (timezone_defaults Ref.libs Sample.old_aware _ "2023-12-01T10:00:00-05:00"
                    {| wall := 1701424800; fold := false; tz := Some (tzoffset (-18000)) |} Hr)
             eq_refl eq_refl eq_refl).
Defined.

(** ** Content type and track name in the [ts] format *)

Lemma truthy_py_or a b : truthy (py_or a b) = truthy a || truthy b.
Proof. unfold py_or. destruct (truthy a) eqn:Ha; [exact Ha | reflexivity]. Qed.

Lemma parse_event_new_source L obj r :
  parse_event L obj = Ok (Some r) ->
  raw_source r = "streaming_history_new" ->
  ts_format L obj = Ok (Some r).
Proof.
  intros Hr Hsrc.
  destruct (parse_event_cases _ _ _ Hr) as [(_ & _ & Ho) | (_ & _ & Hn)]; [| exact Hn].
  rewrite (raw_source_old_format _ _ _ Ho) in Hsrc. discriminate.
Qed.

(** The record of the extended history that has its podcast keys, one
    [null] and one empty, and is music all the same: presence of a key is not
    what [parse_event] tests. *)
Lemma podcast_when_key_present_counterexample :
  has_key Sample.null_episode "episode_name" = true /\
  has_key Sample.null_episode "episode_show_name" = true /\
  exists r,
    parse_event Ref.libs Sample.null_episode = Ok (Some r) /\
    raw_source r = "streaming_history_new" /\
    content_type r = "music".
Proof.
  split; [reflexivity |]. split; [reflexivity |].
  eexists. split; [vm_compute; reflexivity |]. split; reflexivity.
Qed.

(** C6, amended. In a row of the [ts] format, [content_type] is
    [podcast] exactly when one of [spotify_episode_uri], [episode_name] and
    [episode_show_name] has a true value (present, and not [null], empty,
    zero or false), and [music] otherwise; the track name is the first true
    value among [master_metadata_track_name], [trackName] and [episode_name],
    and [episode_title] (or [None]) when none is. *)
Theorem content_type_and_track L obj r :
  parse_event L obj = Ok (Some r) ->
  raw_source r = "streaming_history_new" ->
  content_type r =
    (if truthy (get obj "spotify_episode_uri") || truthy (get obj "episode_name")
        || truthy (get obj "episode_show_name")
     then "podcast" else "music") /\
  track_name r =
    (if truthy (get obj "master_metadata_track_name") then get obj "master_metadata_track_name"
     else if truthy (get obj "trackName") then get obj "trackName"
     else if truthy (get obj "episode_name") then get obj "episode_name"
     else get obj "episode_title").
Proof.
  intros Hr Hsrc. pose proof (parse_event_new_source _ _ _ Hr Hsrc) as Hn.
  unfold ts_format in Hn. case_rbind Hn.
  destruct (a1 <=? 0); [discriminate Hn |].
  injection Hn as <-. cbn [content_type track_name].
  rewrite !truthy_py_or. split; [reflexivity |].
  unfold py_or.
  destruct (truthy (get obj "master_metadata_track_name")) eqn:H1; cbn [negb].
  - reflexivity.
  - destruct (truthy (get obj "trackName")) eqn:H2; cbn [negb]; reflexivity.
Qed.

(** The record of the specification: a track name in the rich metadata and
    an episode name. *)
Lemma content_type_and_track_witness :
  exists r,
    parse_event Ref.libs Sample.new_record = Ok (Some r) /\
    content_type r = "podcast" /\
    track_name r = JStr "C".
Proof.
  eexists.
  match goal with
  | |- ?A /\ _ => assert (Hr : A) by (vm_compute; reflexivity)
  end.
  split; [exact Hr |].
  exact (content_type_and_track Ref.libs Sample.new_record _ Hr eq_refl).
Defined.

(** ** The fallback from [ms_played] to [msPlayed] *)





(** ** Records that make [parse_event] raise *)

(** C2. [parse_event] raises on single records: [TypeError] for an
    [endTime] that is a number (whatever dateutil does with text),
    [ParserError] for an [endTime] that holds no date, [ValueError] for a [ts]
    that holds no date and for an [ms_played] that is not a number.  Raised
    while a file's objects are read, the exception ends [ingest_export]: the
    file is not recorded and the files after it are not read. *)
Theorem parse_event_raises :
  (forall L, parse_event L Sample.numeric_end_time = Raise TypeError) /\
  parse_event Ref.libs Sample.garbled_end_time = Raise ParserError /\
  parse_event Ref.libs Sample.garbled_ts = Raise ValueError /\
  parse_event Ref.libs Sample.text_ms = Raise ValueError /\
  ingest_export Sample.machine Ref.libs Sample.clock "/export" (connect empty_db)
    [Sample.garbled; Sample.endsong] = ([], Raise ParserError).
Proof.
  split; [intros L; reflexivity |].
  repeat split; vm_compute; reflexivity.
Qed.

(** ** Top artists: the order of ties *)

Lemma name_lt_trans a b c : name_lt a b -> name_lt b c -> name_lt a c.
Proof.
  unfold name_lt. intros Hab Hbc.
  apply OrderedTypeEx.String_as_OT.cmp_lt in Hab, Hbc.
  apply OrderedTypeEx.String_as_OT.cmp_lt.
  eapply OrderedTypeEx.String_as_OT.lt_trans; eassumption.
Qed.

Lemma name_lt_irrefl a : ~ name_lt a a.
Proof.
  unfold name_lt. intros Haa.
  apply OrderedTypeEx.String_as_OT.cmp_lt in Haa.
  exact (OrderedTypeEx.String_as_OT.lt_not_eq _ _ Haa eq_refl).
Qed.

Lemma compare_gt_name_lt a b : String.compare a b = Gt -> name_lt b a.
Proof.
  unfold name_lt. intros Hgt. rewrite String.compare_antisym, Hgt. reflexivity.
Qed.

Lemma in_insert_key x k ks : In x (insert_key k ks) <-> x = k \/ In x ks.
Proof.
  induction ks as [| k' r IH]; simpl; [intuition |].
  destruct (String.compare k k') eqn:Hc; simpl.
  - apply String.compare_eq_iff in Hc. subst k'. intuition.
  - intuition.
  - rewrite IH. intuition.
Qed.

Lemma insert_key_sorted k ks :
  StronglySorted name_lt ks -> StronglySorted name_lt (insert_key k ks).
Proof.
  induction 1 as [| k' r Hr IH Hall]; simpl.
  - repeat constructor.
  - destruct (String.compare k k') eqn:Hc.
    + constructor; assumption.
    + constructor; [constructor; assumption |].
      constructor; [exact Hc |].
      eapply List.Forall_impl; [| exact Hall]. intros x. apply name_lt_trans. exact Hc.
    + constructor; [exact IH |].
      apply List.Forall_forall. intros x Hx. apply in_insert_key in Hx as [-> | Hx].
      * apply compare_gt_name_lt, Hc.
      * rewrite List.Forall_forall in Hall. apply Hall, Hx.
Qed.

Lemma group_keys_sorted names : StronglySorted name_lt (group_keys names).
Proof.
  induction names as [| k names IH]; simpl; [constructor | apply insert_key_sorted, IH].
Qed.

Lemma in_group_keys x names : In x (group_keys names) <-> In x names.
Proof.
  induction names as [| k names IH]; simpl; [tauto |].
  rewrite in_insert_key, IH. intuition.
Qed.

(** An ascending list without repeats is determined by its members. *)
Lemma sorted_names_unique l1 :
  forall l2,
    StronglySorted name_lt l1 -> StronglySorted name_lt l2 ->
    (forall x, In x l1 <-> In x l2) -> l1 = l2.
Proof.
  induction l1 as [| a l1 IH]; intros [| b l2] H1 H2 Hsame.
  - reflexivity.
  - destruct (proj2 (Hsame b) (or_introl eq_refl)).
  - destruct (proj1 (Hsame a) (or_introl eq_refl)).
  - apply StronglySorted_inv in H1 as [H1 Ha]. apply StronglySorted_inv in H2 as [H2 Hb].
    rewrite List.Forall_forall in Ha, Hb.
    assert (Hab : a = b).
    { destruct (proj1 (Hsame a) (or_introl eq_refl)) as [Heq | Hin]; [auto |].
      destruct (proj2 (Hsame b) (or_introl eq_refl)) as [Heq | Hin']; [auto |].
      destruct (name_lt_irrefl a). eapply name_lt_trans; [apply Ha, Hin' | apply Hb, Hin]. }
    subst b. f_equal. apply IH; [assumption | assumption |].
    intros x. split; intros Hx.
    + destruct (proj1 (Hsame x) (or_intror Hx)) as [<- | Hin]; [| exact Hin].
      destruct (name_lt_irrefl a). apply Ha, Hx.
    + destruct (proj2 (Hsame x) (or_intror Hx)) as [<- | Hin]; [| exact Hin].
      destruct (name_lt_irrefl a). apply Hb, Hx.
Qed.

Lemma group_values_nonempty {F : Type} k (rows : list (string * F)) :
  In k (map fst rows) <-> group_values k rows <> [].
Proof.
  unfold group_values. induction rows as [| [a x] rows IH]; simpl; [tauto |].
  destruct (String.eqb_spec a k) as [-> | Hne]; simpl.
  - split; [discriminate | auto].
  - rewrite <- IH. intuition.
Qed.

Lemma groupby_sum_keys {F : Type} (P : pandas F) rows :
  map fst (groupby_sum P rows) = group_keys (map fst rows).
Proof.
  unfold groupby_sum. rewrite map_map. cbn [fst]. apply map_id.
Qed.

(** No assumption on the sort behind [sort_values] that makes it return
    its groups makes the claimed order hold: two frames with the same plays,
    met in opposite orders, give the same groups, hence the same result, and
    each of the two tied artists would have to stand before the other. *)
Lemma ties_in_first_met_order_counterexample :
  ~ exists (F : Type) (P : pandas F),
      (forall l, Permutation (sort_values_desc P l) l) /\
      ties_in_first_met_order P.
Proof.
  intros (F & P & Hperm & Hclaim).
  set (x := group_sum P [minutes_of P 60000]).
  set (g := [("A", x); ("B", x)]).
  assert (Hout : forall df,
             groupby_sum P (dropna P df) = g ->
             top_artists P df = sort_values_desc P g).
  { intros df Hg. unfold top_artists. rewrite Hg. apply firstn_all2.
    rewrite (Permutation_length (Hperm g)). cbn. lia. }
  assert (HA : In ("A", x) (sort_values_desc P g)).
  { eapply Permutation_in; [symmetry; apply Hperm |]. left. reflexivity. }
  assert (HB : In ("B", x) (sort_values_desc P g)).
  { eapply Permutation_in; [symmetry; apply Hperm |]. right. left. reflexivity. }
  pose proof (Hclaim Exact.b_then_a "B" "A" x) as H1.
  pose proof (Hclaim Exact.a_then_b "A" "B" x) as H2.
  rewrite (Hout Exact.b_then_a eq_refl) in H1.
  rewrite (Hout Exact.a_then_b eq_refl) in H2.
  destruct (H1 HB HA) as (i & Hi & Hlt1).
  { exists O. split; [reflexivity |]. intros j [= <-]. lia. }
  destruct (H2 HA HB) as (j & Hj & Hlt2).
  { exists O. split; [reflexivity |]. intros k [= <-]. lia. }
  specialize (Hlt1 _ Hj). specialize (Hlt2 _ Hi). lia.
Qed.

Lemma artists_met_dropna {F : Type} (P : pandas F) df :
  map fst (dropna P df) = artists_met df.
Proof.
  unfold artists_met. induction df as [| p df IH]; [reflexivity |].
  cbn. destruct (play_artist p); cbn; [now rewrite IH | exact IH].
Qed.

Lemma sorted_names_nodup l : StronglySorted name_lt l -> List.NoDup l.
Proof.
  induction 1 as [| a l _ IH Hall]; constructor; [| exact IH].
  intros Hin. rewrite List.Forall_forall in Hall.
  exact (name_lt_irrefl a (Hall a Hin)).
Qed.

Lemma sorted_app_inv {A : Type} (R : A -> A -> Prop) l1 :
  forall l2,
    StronglySorted R (l1 ++ l2) ->
    StronglySorted R l1 /\ forall x y, In x l1 -> In y l2 -> R x y.
Proof.
  induction l1 as [| a l1 IH]; intros l2 Hs.
  - split; [constructor | intros x y []].
  - cbn [app] in Hs. apply StronglySorted_inv in Hs as [Hs Ha].
    destruct (IH _ Hs) as [H1 Hcross]. rewrite List.Forall_forall in Ha. split.
    + constructor; [exact H1 |]. apply List.Forall_forall.
      intros x Hx. apply Ha, in_or_app. left. exact Hx.
    + intros x y [<- | Hx] Hy; [| exact (Hcross _ _ Hx Hy)].
      apply Ha, in_or_app. right. exact Hy.
Qed.

(** The insertion sort of the exact stand-in is a descending sort. *)
Lemma insert_desc_permutation x l : Permutation (Exact.insert_desc x l) (x :: l).
Proof.
  induction l as [| y r IH]; cbn; [reflexivity |].
  destruct (Qle_bool (snd y) (snd x)); [reflexivity |].
  etransitivity; [apply perm_skip, IH | apply perm_swap].
Qed.

Lemma insert_desc_sorted x l :
  StronglySorted (by_sum_desc Qle) l ->
  StronglySorted (by_sum_desc Qle) (Exact.insert_desc x l).
Proof.
  induction 1 as [| y r Hr IH Hall]; cbn.
  - repeat constructor.
  - destruct (Qle_bool (snd y) (snd x)) eqn:Hle.
    + apply Qle_bool_iff in Hle.
      constructor; [constructor; assumption |].
      constructor; [exact Hle |].
      eapply List.Forall_impl; [| exact Hall]. unfold by_sum_desc.
      intros z Hz. eapply Qle_trans; eassumption.
    + assert (Hxy : (snd x <= snd y)%Q).
      { apply Qlt_le_weak, Qnot_le_lt. intros Hyx.
        apply Qle_bool_iff in Hyx. congruence. }
      constructor; [exact IH |].
      apply List.Forall_forall. intros z Hz.
      apply (Permutation_in _ (insert_desc_permutation x r)) in Hz as [<- | Hz];
        [exact Hxy |].
      rewrite List.Forall_forall in Hall. apply Hall, Hz.
Qed.

Lemma exact_sorts_descending : sorts_descending Exact.frame Qle.
Proof.
  intros l. cbn [sort_values_desc Exact.frame].
  induction l as [| x l [IHp IHs]]; cbn [fold_right].
  - split; constructor.
  - split.
    + etransitivity; [apply insert_desc_permutation | apply perm_skip, IHp].
    + apply insert_desc_sorted, IHs.
Qed.

(** C8 (as amended).  When [sort_values] is a descending sort, the result
    is the top 15 artists by summed minutes: its entries are artists of the
    frame, each once and with the sum of its minutes; there are 15 of them, or
    all the artists when they are fewer; they stand in non-increasing order of
    their sums; and no artist left out has a larger sum than an artist kept.
    As for ties, the groups are listed in ascending order of artist name
    before [sort_values] sees them, so the groups, and with them the result,
    are the same for two frames that hold the same plays for every artist,
    whatever the order in which the artists are first met: ties come out as
    [sort_values] orders name-sorted groups. *)
Theorem top_artists_name_order {F : Type} (P : pandas F) (le : F -> F -> Prop) df1 df2 :
  sorts_descending P le ->
  (forall k, group_values k (dropna P df1) = group_values k (dropna P df2)) ->
  (forall a v, In (a, v) (top_artists P df1) ->
     In a (artists_met df1) /\ v = group_sum P (group_values a (dropna P df1))) /\
  List.NoDup (map fst (top_artists P df1)) /\
  List.length (top_artists P df1) =
    Nat.min 15 (List.length (group_keys (artists_met df1))) /\
  StronglySorted (by_sum_desc le) (top_artists P df1) /\
  (forall a b v,
     In a (artists_met df1) -> ~ In a (map fst (top_artists P df1)) ->
     In (b, v) (top_artists P df1) ->
     le (group_sum P (group_values a (dropna P df1))) v) /\
  StronglySorted name_lt (map fst (groupby_sum P (dropna P df1))) /\
  groupby_sum P (dropna P df1) = groupby_sum P (dropna P df2) /\
  top_artists P df1 = top_artists P df2.
Proof.
  intros Hsort Hsame.
  set (g := groupby_sum P (dropna P df1)).
  destruct (Hsort g) as [Hperm Hsorted].
  assert (Hsplit : sort_values_desc P g =
                   (top_artists P df1 ++ skipn 15 (sort_values_desc P g))%list)
    by (symmetry; apply firstn_skipn).
  assert (Hing : forall a v, In (a, v) g <->
                   In a (artists_met df1) /\
                   v = group_sum P (group_values a (dropna P df1))).
  { intros a v. unfold g, groupby_sum. rewrite in_map_iff. split.
    - intros (k & [= <- <-] & Hk). rewrite artists_met_dropna in Hk.
      apply (proj1 (in_group_keys _ _)) in Hk. auto.
    - intros [Ha ->]. exists a. split; [reflexivity |].
      apply in_group_keys. now rewrite artists_met_dropna. }
  assert (Htop : forall x, In x (top_artists P df1) -> In x g).
  { intros x Hx. apply (Permutation_in _ Hperm). rewrite Hsplit.
    apply in_or_app. left. exact Hx. }
  assert (Hkeys1 : map fst g = group_keys (artists_met df1)).
  { unfold g. now rewrite groupby_sum_keys, artists_met_dropna. }
  rewrite Hsplit in Hsorted. apply sorted_app_inv in Hsorted as [Hdesc Hcross].
  split; [intros a v Hin; apply Hing, Htop, Hin |].
  split.
  { assert (Hnd : List.NoDup (map fst (sort_values_desc P g))).
    { apply (Permutation_NoDup (Permutation_map fst (Permutation_sym Hperm))).
      rewrite Hkeys1. apply sorted_names_nodup, group_keys_sorted. }
    rewrite Hsplit, map_app in Hnd. exact (NoDup_app_remove_r _ _ Hnd). }
  split.
  { unfold top_artists. fold g.
    rewrite length_firstn, (Permutation_length Hperm), <- Hkeys1, length_map. reflexivity. }
  split; [exact Hdesc |].
  split.
  { intros a b v Ha Hout Hb.
    assert (Hag : In (a, group_sum P (group_values a (dropna P df1))) g)
      by (apply Hing; auto).
    apply (Permutation_in _ (Permutation_sym Hperm)) in Hag.
    rewrite Hsplit in Hag. apply in_app_or in Hag as [Hag | Hag].
    - destruct Hout. apply in_map_iff. eexists. split; [| exact Hag]. reflexivity.
    - exact (Hcross _ _ Hb Hag). }
  assert (Hkeys : group_keys (map fst (dropna P df1)) = group_keys (map fst (dropna P df2))).
  { apply sorted_names_unique; try apply group_keys_sorted.
    intros k. rewrite !in_group_keys, !group_values_nonempty, Hsame. tauto. }
  assert (Hgroups : groupby_sum P (dropna P df1) = groupby_sum P (dropna P df2)).
  { unfold groupby_sum. rewrite Hkeys. apply map_ext. intros k. now rewrite Hsame. }
  split; [rewrite Hkeys1; apply group_keys_sorted |].
  split; [exact Hgroups |].
  unfold top_artists. now rewrite Hgroups.
Qed.

(** The two sample frames under the exact stand-in: artist [B] is met
    first in one and [A] in the other, and both give [A] before [B]. *)
Lemma top_artists_name_order_witness :
  (forall a v, In (a, v) (top_artists Exact.frame Exact.b_then_a) ->
     In a (artists_met Exact.b_then_a) /\
     v = group_sum Exact.frame (group_values a (dropna Exact.frame Exact.b_then_a))) /\
  List.NoDup (map fst (top_artists Exact.frame Exact.b_then_a)) /\
  List.length (top_artists Exact.frame Exact.b_then_a) =
    Nat.min 15 (List.length (group_keys (artists_met Exact.b_then_a))) /\
  StronglySorted (by_sum_desc Qle) (top_artists Exact.frame Exact.b_then_a) /\
  (forall a b v,
     In a (artists_met Exact.b_then_a) ->
     ~ In a (map fst (top_artists Exact.frame Exact.b_then_a)) ->
     In (b, v) (top_artists Exact.frame Exact.b_then_a) ->
     (group_sum Exact.frame (group_values a (dropna Exact.frame Exact.b_then_a)) <= v)%Q) /\
  StronglySorted name_lt (map fst (groupby_sum Exact.frame (dropna Exact.frame Exact.b_then_a))) /\
  groupby_sum Exact.frame (dropna Exact.frame Exact.b_then_a) =
    groupby_sum Exact.frame (dropna Exact.frame Exact.a_then_b) /\
  top_artists Exact.frame Exact.b_then_a = top_artists Exact.frame Exact.a_then_b.
Proof.
  apply (top_artists_name_order Exact.frame Qle Exact.b_then_a Exact.a_then_b).
  - exact exact_sorts_descending.
  - intros k. cbn [dropna Exact.b_then_a Exact.a_then_b play_artist play_ms].
    unfold group_values. cbn [List.filter fst].
    destruct (String.eqb "B" k), (String.eqb "A" k); reflexivity.
Defined.

Example top_artists_sample :
  top_artists Exact.frame Exact.b_then_a = [("A", Qmake 1 1); ("B", Qmake 1 1)].
Proof. vm_compute. reflexivity. Qed.

(** * The rest of the tool

    The functions the properties above do not reach: [sha256_file],
    [find_candidate_files], the remaining series of [report], and further
    behaviour of [parse_event] and [ingest_export]. *)

(** ** [sha256_file]: definitions *)

(** [f.read(n)] on a file opened in binary mode: up to [n] bytes, and the
    bytes left. *)
Fixpoint read (n : N) (bytes : string) : string * string :=
  match bytes with
  | EmptyString => (EmptyString, EmptyString)
  | String b rest =>
      if (n =? 0)%N then (EmptyString, bytes)
      else let '(chunk, remaining) := read (N.pred n) rest in (String b chunk, remaining)
  end.

(** The loop [for chunk in iter(lambda: f.read(n), b""): h.update(chunk)]:
    [fed] is what the hash object has been given so far, and the loop ends at
    the first empty chunk.  [fuel] bounds the number of reads; [None] is a
    loop that has not ended within it. *)
Fixpoint feed_chunks (fuel : nat) (n : N) (remaining fed : string) : option string :=
  match fuel with
  | O => None
  | S fuel' =>
      match read n remaining with
      | (EmptyString, _) => Some fed
      | (chunk, remaining') => feed_chunks fuel' n remaining' (fed ++ chunk)
      end
  end.

(** The chunk size of [sha256_file]: [1024 * 1024]. *)
Definition CHUNK : N := 1024 * 1024.

(** [sha256_file(path)]: the digest of what was fed, [sha256 H] being
    [hashlib.sha256(...).hexdigest()] of a whole byte string.  One read for
    each byte and one more are enough fuel for any chunk size above zero. *)
Definition sha256_file (H : host) (bytes : string) : option string :=
  option_map (sha256 H) (feed_chunks (S (String.length bytes)) CHUNK bytes "").

(** ** [find_candidate_files]: definitions *)

(** A pattern of [rglob]: literal characters and [*]. (The four patterns
    of the tool hold no [?] and no bracket.) *)
Inductive token : Type :=
| Lit (c : ascii)
| Star.

Fixpoint pattern (s : string) : list token :=
  match s with
  | EmptyString => []
  | String c r => (if Ascii.eqb c "*" then Star else Lit c) :: pattern r
  end.

(** The pattern of a text that holds no [*]. *)
Definition lits (x : string) : list token := map Lit (list_ascii_of_string x).

(** Whether a file name matches a pattern, case-sensitively (as pathlib
    matches on POSIX): [*] stands for any run of characters, empty or not. *)
Fixpoint glob (p : list token) (name : string) : bool :=
  match p with
  | [] => match name with EmptyString => true | _ => false end
  | Lit c :: p' =>
      match name with
      | String c' r => Ascii.eqb c c' && glob p' r
      | EmptyString => false
      end
  | Star :: p' =>
      (fix star (s : string) : bool :=
         glob p' s || match s with String _ r => star r | EmptyString => false end) name
  end.

(** What the walk of the export directory meets: a path, its last
    component, whether [is_file()] holds, and [str(resolve())]. *)
Record entry : Type := {
  entry_path : string;
  entry_name : string;
  is_file : bool;
  resolved : string
}.

(** [export_root.rglob(pat)], over the entries in the order of the walk. *)
Definition rglob (tree : list entry) (pat : string) : list entry :=
  List.filter (fun e => glob (pattern pat) (entry_name e)) tree.

Definition patterns : list string :=
  ["StreamingHistory*.json"; "*StreamingHistory*.json"; "endsong*.json"; "*endsong*.json"].

(** The second loop: regular files, the first of each resolved path. *)
Fixpoint unique (seen : gset string) (files : list entry) : list entry :=
  match files with
  | [] => []
  | f :: rest =>
      if is_file f then
        if bool_decide (resolved f ∈ seen) then unique seen rest
        else f :: unique ({[resolved f]} ∪ seen) rest
      else unique seen rest
  end.

(** [find_candidate_files(export_root)]. *)
Definition find_candidate_files (tree : list entry) : list entry :=
  unique ∅ (concat (map (rglob tree) patterns)).

(** A file name of one of the two export styles: it holds
    [StreamingHistory] or [endsong] and, after it, ends in [.json]. *)
Definition history_name (name : string) : Prop :=
  exists a b, name = a ++ "StreamingHistory" ++ b ++ ".json" \/
              name = a ++ "endsong" ++ b ++ ".json".

Module Disk.

Definition tree : list entry :=
  [ {| entry_path := "/export/MyData/StreamingHistory0.json";
       entry_name := "StreamingHistory0.json"; is_file := true;
       resolved := "/export/MyData/StreamingHistory0.json" |};
    {| entry_path := "/export/link.StreamingHistory0.json";
       entry_name := "link.StreamingHistory0.json"; is_file := true;
       resolved := "/export/MyData/StreamingHistory0.json" |};
    {| entry_path := "/export/MyData/endsong_0.json";
       entry_name := "endsong_0.json"; is_file := true;
       resolved := "/export/MyData/endsong_0.json" |};
    {| entry_path := "/export/endsong.json";
       entry_name := "endsong.json"; is_file := false;
       resolved := "/export/endsong.json" |};
    {| entry_path := "/export/MyData/streaminghistory1.json";
       entry_name := "streaminghistory1.json"; is_file := true;
       resolved := "/export/MyData/streaminghistory1.json" |};
    {| entry_path := "/export/MyData/Userdata.json";
       entry_name := "Userdata.json"; is_file := true;
       resolved := "/export/MyData/Userdata.json" |} ].

End Disk.

(** ** [sha256_file]: the whole file is hashed *)

Lemma append_cons c s t : String c s ++ t = String c (s ++ t).
Proof. reflexivity. Qed.

Lemma append_empty_r s : s ++ "" = s.
Proof. induction s as [| c s IH]; [reflexivity | now rewrite append_cons, IH]. Qed.

Lemma append_associative s t u : (s ++ t) ++ u = s ++ (t ++ u).
Proof. induction s as [| c s IH]; [reflexivity | now rewrite !append_cons, IH]. Qed.

Lemma read_splits n bytes :
  fst (read n bytes) ++ snd (read n bytes) = bytes /\
  (String.length (snd (read n bytes)) <= String.length bytes)%nat.
Proof.
  revert n. induction bytes as [| b rest IH]; intros n; cbn [read].
  - split; [reflexivity | cbn; lia].
  - destruct (n =? 0)%N; cbn [fst snd].
    + split; [reflexivity | cbn; lia].
    + specialize (IH (N.pred n)). destruct (read (N.pred n) rest) as [chunk remaining].
      cbn [fst snd String.length] in *. rewrite append_cons.
      split; [f_equal; tauto | lia].
Qed.

(** With a chunk size above zero and one read more than there are bytes,
    the loop ends, and what it has fed is the whole content. *)
Lemma feed_chunks_whole n fuel :
  (0 < n)%N ->
  forall remaining fed,
    (String.length remaining < fuel)%nat ->
    feed_chunks fuel n remaining fed = Some (fed ++ remaining).
Proof.
  intros Hn. induction fuel as [| fuel IH]; intros remaining fed Hfuel; [lia |].
  cbn [feed_chunks]. destruct remaining as [| b rest].
  - cbn [read]. now rewrite append_empty_r.
  - cbn [read]. destruct (N.eqb_spec n 0) as [-> | _]; [lia |].
    destruct (read_splits (N.pred n) rest) as [Happ Hlen].
    destruct (read (N.pred n) rest) as [chunk remaining]. cbn [fst snd] in *.
    rewrite IH by (cbn [String.length] in Hfuel; lia).
    now rewrite append_associative, append_cons, Happ.
Qed.

(** X1. [sha256_file] returns: its loop of one-mebibyte reads ends, and
    the digest is hashlib's digest of the whole content, whatever its
    length. *)
Theorem sha256_file_whole H bytes :
  sha256_file H bytes = Some (sha256 H bytes).
Proof.
  unfold sha256_file.
  rewrite (feed_chunks_whole CHUNK _ eq_refl bytes "") by lia.
  reflexivity.
Qed.

(** ** [find_candidate_files]: what is found *)

Lemma glob_star p name :
  glob (Star :: p) name = true <-> exists a b, name = a ++ b /\ glob p b = true.
Proof.
  cbn [glob]. induction name as [| c r IH].
  - rewrite orb_false_r. split.
    + intros Hg. exists "", "". auto.
    + intros (a & b & Hab & Hg). destruct a; [| discriminate].
      change ("" ++ b) with b in Hab. now subst b.
  - rewrite orb_true_iff, IH. split.
    + intros [Hg | (a & b & -> & Hg)].
      * exists "", (String c r). auto.
      * exists (String c a), b. auto.
    + intros (a & b & Hab & Hg). destruct a as [| c' a].
      * left. change ("" ++ b) with b in Hab. now subst b.
      * right. rewrite append_cons in Hab. injection Hab as -> ->. eauto.
Qed.

Lemma glob_lits x p name :
  glob (lits x ++ p)%list name = true <-> exists r, name = x ++ r /\ glob p r = true.
Proof.
  unfold lits. revert name. induction x as [| c x IH]; intros name.
  - cbn [list_ascii_of_string map app]. split; [eauto | intros (r & -> & Hg); exact Hg].
  - cbn [list_ascii_of_string map app glob]. destruct name as [| c' r'].
    + split; [discriminate | intros (r & Hr & _); discriminate].
    + rewrite andb_true_iff, IH. split.
      * intros [Hc (r & -> & Hg)]. apply Ascii.eqb_eq in Hc. subst c'. eauto.
      * intros (r & Hr & Hg). rewrite append_cons in Hr. injection Hr as -> ->.
        split; [apply Ascii.eqb_refl | eauto].
Qed.

Lemma glob_end name : glob [] name = true <-> name = "".
Proof. destruct name; cbn; split; congruence. Qed.

(** The two patterns with a leading [*], read as conditions on a name. *)
Lemma glob_contains x name :
  glob (Star :: lits x ++ Star :: lits ".json")%list name = true <->
  exists a b, name = a ++ x ++ b ++ ".json".
Proof.
  rewrite glob_star. split.
  - intros (a & r & -> & Hg). apply glob_lits in Hg as (r' & -> & Hg).
    apply glob_star in Hg as (b & r'' & -> & Hg).
    change (lits ".json") with (lits ".json" ++ [])%list in Hg.
    apply glob_lits in Hg as (e & -> & He). apply glob_end in He. subst e.
    exists a, b. reflexivity.
  - intros (a & b & ->). exists a, (x ++ b ++ ".json"). split; [reflexivity |].
    apply glob_lits. exists (b ++ ".json"). split; [reflexivity |].
    apply glob_star. exists b, ".json". split; [reflexivity |].
    change (lits ".json") with (lits ".json" ++ [])%list.
    apply glob_lits. exists "". split; [reflexivity | reflexivity].
Qed.

(** A pattern without the leading [*] matches nothing its starred form
    does not. *)
Lemma glob_star_more p name : glob p name = true -> glob (Star :: p) name = true.
Proof. intros Hg. apply glob_star. exists "", name. auto. Qed.

Lemma matches_history_name name :
  (exists pat, In pat patterns /\ glob (pattern pat) name = true) <-> history_name name.
Proof.
  unfold history_name. split.
  - intros (pat & Hpat & Hg).
    assert (Hs : glob (pattern "*StreamingHistory*.json") name = true \/
                 glob (pattern "*endsong*.json") name = true).
    { cbn [patterns In] in Hpat.
      destruct Hpat as [<- | [<- | [<- | [<- | []]]]].
      - left. apply (glob_star_more (pattern "StreamingHistory*.json")). exact Hg.
      - left. exact Hg.
      - right. apply (glob_star_more (pattern "endsong*.json")). exact Hg.
      - right. exact Hg. }
    destruct Hs as [Hs | Hs].
    + apply (proj1 (glob_contains "StreamingHistory" name)) in Hs as (a & b & ->). eauto.
    + apply (proj1 (glob_contains "endsong" name)) in Hs as (a & b & ->). eauto.
  - intros (a & b & [-> | ->]).
    + exists "*StreamingHistory*.json". split; [cbn; auto |].
      apply (proj2 (glob_contains "StreamingHistory" _)). eauto.
    + exists "*endsong*.json". split; [cbn; auto |].
      apply (proj2 (glob_contains "endsong" _)). eauto.
Qed.

Lemma in_rglobs tree e :
  In e (concat (map (rglob tree) patterns)) <->
  In e tree /\ exists pat, In pat patterns /\ glob (pattern pat) (entry_name e) = true.
Proof.
  rewrite in_concat. split.
  - intros (l & Hl & He). apply in_map_iff in Hl as (pat & <- & Hpat).
    apply filter_In in He as [He Hg]. eauto.
  - intros (He & pat & Hpat & Hg). exists (rglob tree pat).
    split; [apply in_map, Hpat | apply filter_In; auto].
Qed.

Lemma unique_spec files :
  forall seen,
    NoDup (map resolved (unique seen files)) /\
    (forall f, In f (unique seen files) ->
               In f files /\ is_file f = true /\ resolved f ∉ seen) /\
    (forall e, In e files -> is_file e = true ->
               resolved e ∈ seen \/
               exists f, In f (unique seen files) /\ resolved f = resolved e).
Proof.
  induction files as [| f rest IH]; intros seen; cbn [unique].
  - split; [constructor |]. split; intros ? [].
  - destruct (is_file f) eqn:Hfile.
    + destruct (bool_decide_reflect (resolved f ∈ seen)) as [Hseen | Hnew].
      * destruct (IH seen) as (Hnd & Hsound & Hcomplete).
        split; [exact Hnd |]. split.
        -- intros g Hg. destruct (Hsound g Hg) as (? & ? & ?). cbn. auto.
        -- intros e [<- | He] Hf; [left; exact Hseen | auto].
      * destruct (IH ({[resolved f]} ∪ seen)) as (Hnd & Hsound & Hcomplete).
        split; [| split].
        -- cbn [map]. apply NoDup_cons. split; [| exact Hnd].
           intros Hin. apply list_elem_of_In, in_map_iff in Hin as (g & Hg & Hin).
           destruct (Hsound g Hin) as (_ & _ & Hout). rewrite Hg in Hout.
           apply Hout, elem_of_union. left. now apply elem_of_singleton.
        -- intros g [<- | Hg]; [cbn; auto |].
           destruct (Hsound g Hg) as (? & ? & Hout). cbn.
           split; [auto |]. split; [auto |].
           intros Hin. apply Hout, elem_of_union. right. exact Hin.
        -- intros e [<- | He] Hf; [right; exists f; cbn; auto |].
           destruct (Hcomplete e He Hf) as [Hin | (g & Hg & Hr)].
           ++ apply elem_of_union in Hin as [Hin | Hin]; [| left; exact Hin].
              apply elem_of_singleton in Hin. right. exists f. cbn. auto.
           ++ right. exists g. cbn. auto.
    + destruct (IH seen) as (Hnd & Hsound & Hcomplete).
      split; [exact Hnd |]. split.
      * intros g Hg. destruct (Hsound g Hg) as (? & ? & ?). cbn. auto.
      * intros e [<- | He] Hf; [congruence | auto].
Qed.

(** X2. No two files found resolve to the same path: a file and a
    symbolic link to it, or a file matched by two patterns, is listed
    once. *)
Theorem find_candidate_files_distinct tree :
  NoDup (map resolved (find_candidate_files tree)).
Proof. apply unique_spec. Qed.



(** X4. Every regular file of the walk that is named like an export is
    found, itself or another path that resolves to the same file. *)
Theorem find_candidate_files_complete tree e :
  In e tree -> is_file e = true -> history_name (entry_name e) ->
  exists f, In f (find_candidate_files tree) /\ resolved f = resolved e.
Proof.
  intros He Hfile Hname.
  destruct (unique_spec (concat (map (rglob tree) patterns)) ∅) as (_ & _ & Hcomplete).
  destruct (Hcomplete e) as [Hin | Hf];
    [| exact Hfile | destruct (not_elem_of_empty (C:=gset string) _ Hin) | exact Hf].
  apply in_rglobs. split; [exact He | apply matches_history_name, Hname].
Qed.

(** The symbolic link of the sample walk: found through the file it
    resolves to. *)
Lemma find_candidate_files_complete_witness :
  exists f,
    In f (find_candidate_files Disk.tree) /\
    resolved f = "/export/MyData/StreamingHistory0.json".
Proof.
  apply (find_candidate_files_complete Disk.tree
           {| entry_path := "/export/link.StreamingHistory0.json";
              entry_name := "link.StreamingHistory0.json"; is_file := true;
              resolved := "/export/MyData/StreamingHistory0.json" |}).
  - right. left. reflexivity.
  - reflexivity.
  - exists "link.", "0". left. reflexivity.
Defined.

(** ** [parse_event]: the keys it reads, and the fields of a row *)

(** The keys the old format reads, and the keys the [ts] format reads. *)
Definition old_keys : list string :=
  ["endTime"; "msPlayed"; "trackName"; "artistName"].

Definition ts_keys : list string :=
  ["ts"; "ms_played"; "msPlayed";
   "master_metadata_track_name"; "trackName";
   "master_metadata_album_artist_name"; "artistName";
   "master_metadata_album_album_name"; "albumName";
   "episode_name"; "episode_title"; "episode_show_name"; "show_name";
   "spotify_episode_uri"; "platform"].

(** Two objects with the same entry, or none, for each of the keys. *)
Definition agree (keys : list string) (o1 o2 : pydict) : Prop :=
  forall k, In k keys -> o1 !! k = o2 !! k.

(** Whether a decoded value is an object. *)
Definition is_object (v : json) : bool :=
  match v with
  | JDict _ => true
  | _ => false
  end.

(** The objects of what [json.loads] gave: those of the array, none when
    it is not an array. *)
Definition objects_of (data : option json) : list json :=
  match data with
  | Some (JList l) => List.filter is_object l
  | _ => []
  end.

Lemma agree_get keys o1 o2 k :
  agree keys o1 o2 -> In k keys ->
  get o1 k = get o2 k /\ has_key o1 k = has_key o2 k.
Proof. intros Ha Hk. unfold get, has_key. rewrite (Ha k Hk). auto. Qed.

Ltac same_key Ha k :=
  let Hg := fresh "Hg" in
  let Hh := fresh "Hh" in
  destruct (agree_get _ _ _ k Ha) as [Hg Hh];
  [cbn; tauto | rewrite ?Hg, ?Hh; clear Hg Hh].

Lemma old_format_agree L o1 o2 :
  agree old_keys o1 o2 -> old_format L o1 = old_format L o2.
Proof.
  intros Ha. unfold old_format.
  same_key Ha "endTime". same_key Ha "msPlayed".
  same_key Ha "trackName". same_key Ha "artistName". reflexivity.
Qed.

(** X5. A record that has [endTime] and [msPlayed] is read as the old
    format whatever else it holds: its outcome depends on the four keys
    [endTime], [msPlayed], [trackName] and [artistName] only, so a [ts], an
    [ms_played] or podcast fields beside them change nothing. *)
Theorem parse_event_old_format_first L o1 o2 :
  has_key o1 "endTime" && has_key o1 "msPlayed" = true ->
  agree old_keys o1 o2 ->
  parse_event L o1 = parse_event L o2 /\ parse_event L o1 = old_format L o1.
Proof.
  intros Hshape Ha.
  assert (H2 : has_key o2 "endTime" && has_key o2 "msPlayed" = true).
  { destruct (agree_get _ _ _ "endTime" Ha) as [_ <-]; [cbn; tauto |].
    destruct (agree_get _ _ _ "msPlayed" Ha) as [_ <-]; [cbn; tauto |]. exact Hshape. }
  unfold parse_event. rewrite Hshape, H2.
  split; [apply old_format_agree, Ha | reflexivity].
Qed.

(** The record of the specification's example, with a [ts] and podcast
    fields added. *)
Lemma parse_event_old_format_first_witness :
  parse_event Ref.libs Sample.old_record =
    parse_event Ref.libs
      (<["ts" := JStr "not a date"]> (<["episode_name" := JStr "D"]> Sample.old_record)) /\
  parse_event Ref.libs Sample.old_record = old_format Ref.libs Sample.old_record.
Proof.
  apply (parse_event_old_format_first Ref.libs Sample.old_record
           (<["ts" := JStr "not a date"]> (<["episode_name" := JStr "D"]> Sample.old_record))).
  - reflexivity.
  - intros k Hk. cbn in Hk.
    destruct Hk as [<- | [<- | [<- | [<- | []]]]]; reflexivity.
Defined.

(** X6. [parse_event] reads sixteen keys and nothing else: two objects
    that agree on the keys of the two formats have the same outcome, a row,
    [None] or an exception. *)
Theorem parse_event_reads_keys L o1 o2 :
  agree (old_keys ++ ts_keys) o1 o2 -> parse_event L o1 = parse_event L o2.
Proof.
  intros Ha. unfold parse_event, old_format, ts_format.
  same_key Ha "endTime". same_key Ha "msPlayed". same_key Ha "trackName".
  same_key Ha "artistName". same_key Ha "ts". same_key Ha "ms_played".
  same_key Ha "master_metadata_track_name".
  same_key Ha "master_metadata_album_artist_name".
  same_key Ha "master_metadata_album_album_name". same_key Ha "albumName".
  same_key Ha "episode_name". same_key Ha "episode_title".
  same_key Ha "episode_show_name". same_key Ha "show_name".
  same_key Ha "spotify_episode_uri". same_key Ha "platform".
  reflexivity.
Qed.

(** The record of the specification's example, with a key the tool does
    not know. *)
Lemma parse_event_reads_keys_witness :
  parse_event Ref.libs Sample.new_record =
  parse_event Ref.libs (<["conn_country" := JStr "FR"]> Sample.new_record).
Proof.
  apply (parse_event_reads_keys Ref.libs Sample.new_record
           (<["conn_country" := JStr "FR"]> Sample.new_record)).
  intros k Hk. cbn in Hk.
  repeat (destruct Hk as [<- | Hk]; [reflexivity |]). destruct Hk.
Defined.

Lemma py_int_or_zero_positive other v ms :
  py_int other (py_or v (JInt 0)) = Ok ms -> 0 < ms ->
  truthy v = true /\ py_int other v = Ok ms.
Proof.
  unfold py_or. destruct (truthy v); [auto |].
  cbn. intros [= <-] Hpos. lia.
Qed.

(** Texts sqlite3 can bind and texts it cannot: [e] with an acute accent,
    the euro sign and a character beyond the basic plane are UTF-8; a lone
    surrogate, an overlong form, a lone continuation byte, a cut sequence, a
    code beyond U+10FFFF and a Latin-1 byte are not. *)
Example bind_text_samples :
  map (fun l => bind_text (string_of_list_ascii (map ascii_of_N l)))
    [[97; 195; 169]; [226; 130; 172]; [240; 159; 152; 128]; [];
     [237; 160; 128]; [192; 128]; [128]; [226; 130]; [244; 144; 128; 128]; [233; 116]]%N =
  [Ok tt; Ok tt; Ok tt; Ok tt;
   Raise UnicodeEncodeError; Raise UnicodeEncodeError; Raise UnicodeEncodeError;
   Raise UnicodeEncodeError; Raise UnicodeEncodeError; Raise UnicodeEncodeError].
Proof. reflexivity. Qed.

(** What [int()] makes of a few plain texts: blanks around the literal and
    single underscores between digits are allowed; the separators of codes 28
    to 31 are not blanks for it, and a literal needs a digit. *)
Example py_int_plain_texts :
  map (py_int (fun _ => None))
    [JStr " 1_500 "; JStr "-007"; JStr "+12"; JStr (String (ascii_of_N 9) "12");
     JStr (String (ascii_of_N 31) "12"); JStr "1__5"; JStr "12_"; JStr "- 5"; JStr "1.5";
     JStr ""] =
  [Ok 1500; Ok (-7); Ok 12; Ok 12;
   Raise ValueError; Raise ValueError; Raise ValueError; Raise ValueError;
   Raise ValueError; Raise ValueError].
Proof. reflexivity. Qed.

(** X7. The [ms_played] of an accepted row is [int()] of the field
    itself: of [msPlayed] in the old format, and in the [ts] format of
    [ms_played] when that is a true value and of [msPlayed] otherwise.  So a
    whole number written as plain text is accepted, and a fractional number is
    cut toward zero. *)
Theorem accepted_ms_is_int L obj r :
  parse_event L obj = Ok (Some r) ->
  py_int (int_text L)
    (if String.eqb (raw_source r) "streaming_history_old" then get obj "msPlayed"
     else if truthy (get obj "ms_played") then get obj "ms_played"
     else get obj "msPlayed") = Ok (ms_played r).
Proof.
  intros Hr. destruct (parse_event_cases _ _ _ Hr) as [(_ & _ & Ho) | (_ & _ & Hn)].
  - rewrite (raw_source_old_format _ _ _ Ho). cbn [String.eqb Ascii.eqb Bool.eqb].
    apply old_format_accepts in Ho as (dt & t & ms & _ & _ & Hms & Hpos & ->).
    exact (proj2 (py_int_or_zero_positive _ _ _ Hms Hpos)).
  - pose proof (raw_source_ts_format _ _ _ Hn) as Hsrc. rewrite Hsrc.
    apply ts_format_accepts in Hn as (dt & t & ms & _ & _ & Hms & Hpos & _ & _ & -> & _).
    change (String.eqb "streaming_history_new" "streaming_history_old") with false.
    cbv iota. apply py_int_or_zero_positive in Hms as [_ Hms]; [| exact Hpos].
    exact Hms.
Qed.

(** A play time written as text, and one with a fraction
    ([1500.5], the double [3001 * 2^-1]). *)
Lemma accepted_ms_is_int_witness :
  py_int (int_text Ref.libs) (JStr " 1_500 ") = Ok 1500 /\
  py_int (int_text Ref.libs) (JFloat (S754_finite false 3001 (-1))) = Ok 1500.
Proof.
  split.
  - exact (accepted_ms_is_int Ref.libs
             (<["endTime" := JStr "2023-05-01 10:00:00"]>
                (<["msPlayed" := JStr " 1_500 "]> ∅))
             {| played_at_utc := "2023-05-01T08:00:00+00:00";
                played_at_local := "2023-05-01T10:00:00+02:00";
                track_name := JNull; artist_name := JNull; album_name := JNull;
                ms_played := 1500; platform := JNull; content_type := "music";
                raw_source := "streaming_history_old" |} eq_refl).
  - exact (accepted_ms_is_int Ref.libs
             (<["ts" := JStr "2023-05-01T08:00:00Z"]>
                (<["msPlayed" := JFloat (S754_finite false 3001 (-1))]> ∅))
             {| played_at_utc := "2023-05-01T08:00:00+00:00";
                played_at_local := "2023-05-01T10:00:00+02:00";
                track_name := JNull; artist_name := JNull; album_name := JNull;
                ms_played := 1500; platform := JNull; content_type := "music";
                raw_source := "streaming_history_new" |} eq_refl).
Defined.

(** X8. In a row of the [ts] format the artist is the first true value
    among [master_metadata_album_artist_name], [artistName] and
    [episode_show_name], and [show_name] (or [None]) when none is; the album
    is [master_metadata_album_album_name] when true and [albumName]
    otherwise, with no podcast fallback; the platform is copied. *)
Theorem ts_format_artist_album L obj r :
  parse_event L obj = Ok (Some r) ->
  raw_source r = "streaming_history_new" ->
  artist_name r =
    (if truthy (get obj "master_metadata_album_artist_name")
     then get obj "master_metadata_album_artist_name"
     else if truthy (get obj "artistName") then get obj "artistName"
     else if truthy (get obj "episode_show_name") then get obj "episode_show_name"
     else get obj "show_name") /\
  album_name r =
    (if truthy (get obj "master_metadata_album_album_name")
     then get obj "master_metadata_album_album_name"
     else get obj "albumName") /\
  platform r = get obj "platform".
Proof.
  intros Hr Hsrc. pose proof (parse_event_new_source _ _ _ Hr Hsrc) as Hn.
  unfold ts_format in Hn. case_rbind Hn.
  destruct (a1 <=? 0); [discriminate Hn |].
  injection Hn as <-. cbn [artist_name album_name platform].
  split; [| split; reflexivity].
  unfold py_or.
  destruct (truthy (get obj "master_metadata_album_artist_name")) eqn:H1; cbn [negb].
  - rewrite H1. reflexivity.
  - destruct (truthy (get obj "artistName")) eqn:H2; cbn [negb]; rewrite ?H2; reflexivity.
Qed.

(** A podcast episode of an extended history. *)
Lemma ts_format_artist_album_witness :
  exists r,
    parse_event Ref.libs
      (<["ts" := JStr "2023-05-01T08:00:00Z"]> (<["ms_played" := JInt 60000]>
       (<["master_metadata_album_artist_name" := JNull]>
       (<["episode_show_name" := JStr "Show"]> (<["platform" := JStr "ios"]> ∅))))) =
      Ok (Some r) /\
    artist_name r = JStr "Show" /\ album_name r = JNull /\ platform r = JStr "ios".
Proof.
  eexists.
  match goal with
  | |- ?A /\ _ => assert (Hr : A) by (vm_compute; reflexivity)
  end.
  split; [exact Hr |].
  exact (ts_format_artist_album Ref.libs _ _ Hr eq_refl).
Defined.

(** X9. A row of the old format is always music, without album and
    without platform, and its track and artist are [trackName] and
    [artistName] as they stand (no fallback, [None] when missing). *)
Theorem old_format_fields L obj r :
  parse_event L obj = Ok (Some r) ->
  raw_source r = "streaming_history_old" ->
  content_type r = "music" /\ album_name r = JNull /\ platform r = JNull /\
  track_name r = get obj "trackName" /\ artist_name r = get obj "artistName".
Proof.
  intros Hr Hsrc.
  destruct (parse_event_cases _ _ _ Hr) as [(_ & _ & Ho) | (_ & _ & Hn)].
  - apply old_format_accepts in Ho as (dt & t & ms & _ & _ & _ & _ & ->).
    cbn. auto.
  - rewrite (raw_source_ts_format _ _ _ Hn) in Hsrc. discriminate.
Qed.

(** An old-format record that names an episode: still music. *)
Lemma old_format_fields_witness :
  exists r,
    parse_event Ref.libs
      (<["endTime" := JStr "2023-05-01 10:00:00"]> (<["msPlayed" := JInt 1000]>
       (<["episode_name" := JStr "D"]> ∅))) = Ok (Some r) /\
    content_type r = "music" /\ album_name r = JNull /\ platform r = JNull /\
    track_name r = JNull /\ artist_name r = JNull.
Proof.
  eexists.
  match goal with
  | |- ?A /\ _ => assert (Hr : A) by (vm_compute; reflexivity)
  end.
  split; [exact Hr |].
  exact (old_format_fields Ref.libs _ _ Hr eq_refl).
Defined.

(** ** The objects of a file *)

(** X10. Elements of the array that are not objects (numbers, text,
    [null], nested arrays) are passed over: the rows, and any exception, are
    those of the objects alone. *)
Theorem collect_rows_objects_only L data :
  collect_rows L data = collect_rows L (List.filter is_object data).
Proof.
  induction data as [| v data IH]; [reflexivity |].
  destruct v; cbn [collect_rows List.filter is_object]; try exact IH.
  rewrite IH. reflexivity.
Qed.

(** X11. The rows of an array are the rows of its parts, in order: the
    first part's exception if it has one, else the second's. *)
Theorem collect_rows_app L a b :
  collect_rows L (a ++ b) =
  let! ra := collect_rows L a in
  let! rb := collect_rows L b in
  Ok (ra ++ rb)%list.
Proof.
  induction a as [| v a IH]; cbn [app collect_rows rbind].
  - destruct (collect_rows L b); reflexivity.
  - destruct v; try exact IH.
    destruct (parse_event L d) as [e |]; cbn [rbind]; [| reflexivity].
    rewrite IH. destruct (collect_rows L a); cbn [rbind]; [| reflexivity].
    destruct (collect_rows L b); cbn [rbind]; [| reflexivity].
    destruct e; reflexivity.
Qed.

(** X12. A file gives at most one row for each object of its array,
    and none when its content is not an array. *)
Theorem file_rows_count H L f rows :
  file_rows H L f = Ok rows ->
  (List.length rows <= List.length (objects_of (read_json H (content f))))%nat.
Proof.
  unfold file_rows, objects_of. intros Hf.
  destruct (read_json H (content f)) as [[| | | | | data |] |];
    try (injection Hf as <-; cbn; lia).
  revert rows Hf. induction data as [| v data IH]; intros rows Hc.
  - injection Hc as <-. cbn. lia.
  - destruct v; cbn [collect_rows List.filter is_object] in *; try (apply IH; exact Hc).
    case_rbind Hc. injection Hc as <-. specialize (IH _ eq_refl).
    destruct a; cbn [List.length] in *; lia.
Qed.

(** The first sample file: three elements, two of them objects, one row. *)
Lemma file_rows_count_witness :
  (1 <= List.length (objects_of (read_json Sample.machine (content Sample.history))))%nat.
Proof.
  exact (file_rows_count Sample.machine Ref.libs Sample.history
           [{| played_at_utc := "2023-05-01T08:00:00+00:00";
               played_at_local := "2023-05-01T10:00:00+02:00";
               track_name := JStr "A"; artist_name := JStr "B"; album_name := JNull;
               ms_played := 120000; platform := JNull; content_type := "music";
               raw_source := "streaming_history_old" |}] eq_refl).
Defined.

(** ** [ingest_export]: counters, content as identity, failures *)

(** A host for a file whose second record names its track by a list,
    which sqlite3 cannot bind. *)
Module Nested.

Definition nested_record : pydict :=
  <["endTime" := JStr "2023-05-01 12:00:00"]> (<["msPlayed" := JInt 1000]>
  (<["trackName" := JList [JStr "a"; JStr "b"]]> ∅)).

Definition nested : file :=
  {| path := "/export/StreamingHistory3.json"; content := "nested" |}.

Definition loads (bytes : string) : option json :=
  if String.eqb bytes "nested" then
    Some (JList [JDict Sample.old_record; JDict nested_record])
  else Sample.loads bytes.

Definition machine : host := {| sha256 := fun bytes => bytes; read_json := loads |}.

End Nested.

(** The tables count as the counters say. *)
Definition counted (c c' : conn) (n n' : counters) (files : list file) : Prop :=
  new_files n' + skipped n' = new_files n + skipped n + Z.of_nat (List.length files) /\
  new_files n <= new_files n' /\
  skipped n <= skipped n' /\
  Z.of_nat (List.length (imports (current c'))) =
    Z.of_nat (List.length (imports (current c))) + (new_files n' - new_files n) /\
  Z.of_nat (List.length (events (current c'))) =
    Z.of_nat (List.length (events (current c))) + (rows_total n' - rows_total n).

(** Keys handed out by [AUTOINCREMENT]: 1, 2, 3, ... in the order of
    insertion, in both tables. *)
Definition numbered (d : db) : Prop :=
  events_seq d = Z.of_nat (List.length (events d)) /\
  map event_id (events d) = map Z.of_nat (seq 1 (List.length (events d))) /\
  imports_seq d = Z.of_nat (List.length (imports d)) /\
  map import_id (imports d) = map Z.of_nat (seq 1 (List.length (imports d))).

Lemma process_file_counted H L clock root c n f tr c' n' :
  process_file H L clock root c n f = (tr, Ok (c', n')) ->
  counted c c' n n' [f].
Proof.
  intros Hp. destruct (process_file_outcome _ _ _ _ _ _ _ _ _ Hp) as [_ Hend].
  unfold counted.
  destruct (Hend _ _ eq_refl) as [(_ & -> & -> & _) | (rows & _ & _ & Hins & -> & -> & _)].
  - cbn. lia.
  - destruct (insert_events (current c) rows (sha256 H (content f))) as [d1 e] eqn:Hrun.
    cbn [snd] in Hins. subst e.
    pose proof (insert_events_done _ _ _ _ Hrun) as Hev.
    pose proof (insert_events_imports (current c) rows (sha256 H (content f))) as [Himp _].
    rewrite Hrun in Himp. cbn [fst] in Himp.
    unfold unit_added. rewrite Hrun.
    cbn [current txn durable import_added imports events fst import_counted
         new_files skipped rows_total List.length].
    rewrite Himp, Hev, !length_app, length_number_events. cbn [List.length]. lia.
Qed.

Lemma ingest_loop_counted H L clock root files :
  forall c n c' n',
    snd (ingest_loop H L clock root c n files) = Ok (c', n') ->
    counted c c' n n' files.
Proof.
  induction files as [| f rest IH]; intros c n c' n' Hrun.
  - injection Hrun as <- <-. unfold counted. cbn. lia.
  - rewrite ingest_loop_cons in Hrun.
    destruct (process_file H L clock root c n f) as [tr [[c1 n1] | e]] eqn:Hp;
      cbn [snd] in Hrun; [| discriminate].
    pose proof (process_file_counted _ _ _ _ _ _ _ _ _ _ Hp) as H1.
    pose proof (IH _ _ _ _ Hrun) as H2.
    unfold counted in *. cbn [List.length] in *. lia.
Qed.

(** X13. When [ingest_export] returns, its summary adds up: every file
    found was either imported or skipped, the [imports] table has grown by
    [new_files_imported] records, and the [events] table by [rows_inserted]
    rows. *)
Theorem ingest_export_accounts H L clock root c files c' sm :
  snd (ingest_export H L clock root c files) = Ok (c', sm) ->
  files_found sm = new_files_imported sm + files_skipped sm /\
  Z.of_nat (List.length (imports (current c'))) =
    Z.of_nat (List.length (imports (current c))) + new_files_imported sm /\
  Z.of_nat (List.length (events (current c'))) =
    Z.of_nat (List.length (events (current c))) + summary_rows_inserted sm /\
  0 <= new_files_imported sm <= files_found sm.
Proof.
  intros Hrun. apply ingest_export_ok_inv in Hrun as (n & Hloop & ->).
  apply ingest_loop_counted in Hloop. unfold counted, zero_counters in Hloop.
  cbn [files_found new_files_imported files_skipped summary_rows_inserted
       new_files skipped rows_total] in *.
  lia.
Qed.

(** The sample run on a new store: five files, four imported, two rows. *)
Lemma ingest_export_accounts_witness :
  exists c' sm,
    snd (ingest_export Sample.machine Ref.libs Sample.clock "/export"
           (connect empty_db) Sample.files) = Ok (c', sm) /\
    files_found sm = new_files_imported sm + files_skipped sm /\
    Z.of_nat (List.length (imports (current c'))) = 0 + new_files_imported sm /\
    Z.of_nat (List.length (events (current c'))) = 0 + summary_rows_inserted sm /\
    0 <= new_files_imported sm <= files_found sm.
Proof.
  eexists. eexists.
  match goal with
  | |- ?A /\ _ => assert (Hrun : A) by (vm_compute; reflexivity)
  end.
  split; [exact Hrun |].
  exact (ingest_export_accounts Sample.machine Ref.libs Sample.clock "/export"
           (connect empty_db) Sample.files _ _ Hrun).
Defined.

(** X14. The identity of a file is its content, not its path: after a
    run that returned, a run over any files whose bytes are those of files
    of the first run (moved, copied, listed under another root) sends no
    statement and skips them all. *)
Theorem ingest_skips_known_content H L clock clock2 root root2 c files c1 sm1 files2 :
  snd (ingest_export H L clock root c files) = Ok (c1, sm1) ->
  Forall (fun g => exists f, In f files /\ content g = content f) files2 ->
  ingest_export H L clock2 root2 c1 files2 =
  ([], Ok (c1, {| summary_export_root := root2;
                  files_found := Z.of_nat (List.length files2);
                  new_files_imported := 0;
                  files_skipped := Z.of_nat (List.length files2);
                  summary_rows_inserted := 0 |})).
Proof.
  intros Hrun Hsame.
  apply ingest_export_ok_inv in Hrun as (n & Hloop & ->).
  destruct (ingest_loop_records _ _ _ _ _ _ _ _ _ Hloop) as [_ Hall].
  assert (Hall2 : Forall (fun g => already_imported c1 (sha256 H (content g)) = true) files2).
  { eapply Forall_impl; [exact Hsame |]. cbv beta. intros g (f & Hf & ->).
    rewrite Forall_forall in Hall. apply Hall, list_elem_of_In, Hf. }
  unfold ingest_export.
  rewrite (ingest_loop_all_skipped H L root2 clock2 files2 c1 _ Hall2).
  reflexivity.
Qed.

(** The first sample file copied to another path, met after the sample
    run. *)
Lemma ingest_skips_known_content_witness :
  exists c1 sm1,
    snd (ingest_export Sample.machine Ref.libs Sample.clock "/export"
           (connect empty_db) Sample.files) = Ok (c1, sm1) /\
    ingest_export Sample.machine Ref.libs Sample.clock "/backup" c1
      [{| path := "/backup/old/StreamingHistory0.json"; content := "history" |}] =
    ([], Ok (c1, {| summary_export_root := "/backup"; files_found := 1;
                    new_files_imported := 0; files_skipped := 1;
                    summary_rows_inserted := 0 |})).
Proof.
  eexists. eexists.
  match goal with
  | |- ?A /\ _ => assert (Hrun : A) by (vm_compute; reflexivity)
  end.
  split; [exact Hrun |].
  refine (ingest_skips_known_content Sample.machine Ref.libs Sample.clock Sample.clock
            "/export" "/backup" (connect empty_db) Sample.files _ _
            [{| path := "/backup/old/StreamingHistory0.json"; content := "history" |}]
            Hrun _).
  constructor; [| constructor].
  exists Sample.history. split; [left; reflexivity | reflexivity].
Defined.

Lemma insert_events_unbindable d rows h :
  Exists (fun r => exists e, bind_row r = Raise e) rows ->
  exists e, snd (insert_events d rows h) = Some e.
Proof.
  intros Hex. revert d. induction Hex as [r rest [e He] | r rest _ IH]; intros d;
    cbn [insert_events]; unfold insert_event.
  - rewrite He. cbn. eauto.
  - destruct (bind_row r) as [[] | e]; cbn [rbind snd]; [apply IH | eauto].
Qed.

(** X15. A row sqlite3 cannot bind (a name that is a list or an object,
    a number outside 64 bits) ends the run inside [executemany]: the
    exception leaves [ingest_export], nothing of the file is committed, no
    import record is written for it, and the files after it are not read. *)
Theorem unbindable_row_aborts H L clock root c n f rest rows :
  already_imported c (sha256 H (content f)) = false ->
  file_rows H L f = Ok rows ->
  Exists (fun r => exists e, bind_row r = Raise e) rows ->
  exists e c1,
    ingest_loop H L clock root c n (f :: rest) = ([c1], Raise e) /\
    durable c1 = durable c /\
    imports (current c1) = imports (current c).
Proof.
  intros Hnew Hrows Hbad.
  destruct (insert_events_unbindable (current c) rows (sha256 H (content f)) Hbad) as [e He].
  pose proof (process_file_imports H L clock root c n f rows Hnew Hrows) as Hp.
  cbv zeta in Hp. rewrite He in Hp.
  exists e. eexists. rewrite ingest_loop_cons, Hp.
  split; [reflexivity |]. split; [reflexivity |].
  cbn [current txn]. apply insert_events_imports.
Qed.

(** The file whose second record names its track by a list, on a new
    store and followed by another file: the first row is inserted in the
    transaction, then the run ends with nothing committed. *)
Lemma unbindable_row_aborts_witness :
  exists e c1,
    ingest_loop Nested.machine Ref.libs Sample.clock "/export" (connect empty_db)
      zero_counters [Nested.nested; Sample.endsong] = ([c1], Raise e) /\
    durable c1 = empty_db /\
    imports (current c1) = [].
Proof.
  assert (Hrows : file_rows Nested.machine Ref.libs Nested.nested = Ok _)
    by (vm_compute; reflexivity).
  apply (unbindable_row_aborts Nested.machine Ref.libs Sample.clock "/export"
           (connect empty_db) zero_counters Nested.nested [Sample.endsong] _ eq_refl Hrows).
  right. left. exists InterfaceError. reflexivity.
Defined.

Lemma ingest_loop_committed H L clock root files :
  forall c n c' n',
    snd (ingest_loop H L clock root c n files) = Ok (c', n') ->
    new_files n <= new_files n' /\
    ((new_files n' = new_files n /\ c' = c) \/
     (new_files n < new_files n' /\ txn c' = None)).
Proof.
  induction files as [| f rest IH]; intros c n c' n' Hrun.
  - injection Hrun as <- <-. split; [lia | left; auto].
  - rewrite ingest_loop_cons in Hrun.
    destruct (process_file H L clock root c n f) as [tr [[c1 n1] | e]] eqn:Hp;
      cbn [snd] in Hrun; [| discriminate].
    destruct (process_file_outcome _ _ _ _ _ _ _ _ _ Hp) as [_ Hend].
    destruct (IH _ _ _ _ Hrun) as [Hle Hrest].
    destruct (Hend _ _ eq_refl) as [(_ & -> & -> & _) | (rows & _ & _ & _ & -> & -> & _)].
    + cbn [skip_counted new_files] in *. split; [lia |]. exact Hrest.
    + cbn [import_counted new_files] in *. split; [lia |]. right.
      destruct Hrest as [[_ ->] | [_ Htxn]]; [split; [lia | reflexivity] | split; [lia | exact Htxn]].
Qed.

(** X16. When [ingest_export] returns, no work is left uncommitted: a run
    that imported no file has not touched the connection, and after a run
    that imported one the connection has no open transaction, so the
    [conn.close()] that follows in [import_export] discards nothing. *)
Theorem ingest_export_leaves_committed H L clock root c files c' sm :
  snd (ingest_export H L clock root c files) = Ok (c', sm) ->
  (new_files_imported sm = 0 /\ c' = c) \/
  (0 < new_files_imported sm /\ txn c' = None /\ current c' = durable c').
Proof.
  intros Hrun. apply ingest_export_ok_inv in Hrun as (n & Hloop & ->).
  destruct (ingest_loop_committed _ _ _ _ _ _ _ _ _ Hloop) as [_ [[Hn ->] | [Hn Htxn]]];
    cbn [new_files_imported zero_counters new_files] in *.
  - left. auto.
  - right. split; [exact Hn |]. split; [exact Htxn |]. unfold current. now rewrite Htxn.
Qed.

Lemma ingest_export_leaves_committed_witness :
  exists c' sm,
    snd (ingest_export Sample.machine Ref.libs Sample.clock "/export"
           (connect empty_db) Sample.files) = Ok (c', sm) /\
    ((new_files_imported sm = 0 /\ c' = connect empty_db) \/
     (0 < new_files_imported sm /\ txn c' = None /\ current c' = durable c')).
Proof.
  eexists. eexists.
  match goal with
  | |- ?A /\ _ => assert (Hrun : A) by (vm_compute; reflexivity)
  end.
  split; [exact Hrun |].
  exact (ingest_export_leaves_committed Sample.machine Ref.libs Sample.clock "/export"
           (connect empty_db) Sample.files _ _ Hrun).
Defined.



(** ** Keys of the two tables *)

Lemma seq_snoc n : seq 1 (S n) = (seq 1 n ++ [S n])%list.
Proof. rewrite List.seq_S. reflexivity. Qed.

Lemma numbered_event_added d r h : numbered d -> numbered (event_added d r h).
Proof.
  unfold numbered, event_added. cbn [events imports events_seq imports_seq].
  intros (Hs & Hids & Hi).
  rewrite length_app, Nat.add_1_r, seq_snoc, !map_app, Hids, Hs. cbn [map List.length].
  split; [lia |]. split; [| exact Hi]. f_equal. f_equal. cbn [event_id]. lia.
Qed.

Lemma numbered_import_added d at_ root p h n :
  numbered d -> numbered (import_added d at_ root p h n).
Proof.
  unfold numbered, import_added. cbn [events imports events_seq imports_seq].
  intros (He1 & He2 & Hs & Hids).
  rewrite length_app, Nat.add_1_r, seq_snoc, !map_app, Hids, Hs. cbn [map List.length].
  split; [exact He1 |]. split; [exact He2 |]. split; [lia |].
  f_equal. f_equal. cbn [import_id]. lia.
Qed.

Lemma numbered_insert_events rows :
  forall d h, numbered d -> numbered (fst (insert_events d rows h)).
Proof.
  induction rows as [| r rows IH]; intros d h Hd; cbn [insert_events]; [exact Hd |].
  unfold insert_event. destruct (bind_row r); cbn [rbind]; [| exact Hd].
  apply IH, numbered_event_added, Hd.
Qed.

Lemma exec_numbered c s :
  numbered (durable c) /\ numbered (current c) ->
  numbered (durable (fst (exec c s))) /\ numbered (current (fst (exec c s))).
Proof.
  intros [Hd Hc]. destruct s as [rows h | root p | at_ root p h n |]; cbn [exec].
  - pose proof (numbered_insert_events rows (current c) h Hc) as Hi.
    destruct (insert_events (current c) rows h) as [d e]. cbn [fst durable current txn] in *.
    auto.
  - cbn [fst durable current txn]. auto.
  - unfold insert_import. destruct (hash_recorded (current c) h);
      cbn [fst durable current txn]; split; auto.
    now apply numbered_import_added.
  - cbn [fst durable current txn]. auto.
Qed.

(** X18. Whatever statements a store created by [init_db] has received,
    whole, failed or cut short, the keys of its events are 1, 2, 3, ... in
    the order of insertion, and so are the keys of its import records: no key
    is used twice, and the rows of a file keep consecutive keys in the order
    of the file. *)
Theorem keys_are_consecutive ss :
  map event_id (events (current (run_stmts (connect empty_db) ss))) =
    map Z.of_nat (seq 1 (List.length (events (current (run_stmts (connect empty_db) ss))))) /\
  map import_id (imports (current (run_stmts (connect empty_db) ss))) =
    map Z.of_nat (seq 1 (List.length (imports (current (run_stmts (connect empty_db) ss))))).
Proof.
  assert (Hall : forall ss c,
             numbered (durable c) /\ numbered (current c) ->
             numbered (durable (run_stmts c ss)) /\ numbered (current (run_stmts c ss))).
  { clear ss. induction ss as [| s ss IH]; intros c Hc; [exact Hc |].
    apply (IH (fst (exec c s))), exec_numbered, Hc. }
  destruct (Hall ss (connect empty_db)) as [_ (_ & He & _ & Hi)].
  { split; repeat split; reflexivity. }
  split; assumption.
Qed.

(** ** [report]: the series by hour and by weekday, and the summary *)

(** The columns of the frame of [load_df] these series read:
    [played_at_local], a naive Paris wall time (in seconds from
    1970-01-01T00:00:00), and [ms_played]. *)
Record listened : Type := {
  played_local : Z;
  listened_ms : Z
}.

(** [dt.hour], [dt.day_name()] and [dt.date] (as a day number);
    1970-01-01 was a Thursday. *)
Definition hour_of (w : Z) : Z := w mod 86400 / 3600.

Definition day_name (w : Z) : string :=
  match (w / 86400 + 3) mod 7 with
  | 0 => "Monday"
  | 1 => "Tuesday"
  | 2 => "Wednesday"
  | 3 => "Thursday"
  | 4 => "Friday"
  | 5 => "Saturday"
  | _ => "Sunday"
  end.

Definition date_of (w : Z) : Z := w / 86400.

(** An integer key put at its place in an ascending list without
    repeats, and the distinct keys of a column, ascending. *)
Fixpoint insert_int (k : Z) (ks : list Z) : list Z :=
  match ks with
  | [] => [k]
  | k' :: r =>
      match k ?= k' with
      | Lt => k :: ks
      | Eq => ks
      | Gt => k' :: insert_int k r
      end
  end.

Definition int_keys (column : list Z) : list Z := fold_right insert_int [] column.

(** [df.groupby("hour")["minutes"].sum().sort_index()]: the groups come
    in ascending order of the hour, which [sort_index] keeps. *)
Definition by_hour {F : Type} (P : pandas F) (df : list listened) : list (Z * F) :=
  map (fun h =>
         (h, group_sum P
               (map (fun r => minutes_of P (listened_ms r))
                  (List.filter (fun r => hour_of (played_local r) =? h) df))))
    (int_keys (map (fun r => hour_of (played_local r)) df)).

(** [df.groupby("weekday")["minutes"].sum()]. *)
Definition by_day {F : Type} (P : pandas F) (df : list listened) : list (string * F) :=
  groupby_sum P (map (fun r => (day_name (played_local r), minutes_of P (listened_ms r))) df).

(** The names of the days in the order [by_day] can list them. *)
Definition days_by_name : list string :=
  ["Friday"; "Monday"; "Saturday"; "Sunday"; "Thursday"; "Tuesday"; "Wednesday"].

(** The float arithmetic of the summary: [float(df["minutes"].sum())],
    [total_minutes / days] and [0.0]. *)
Record arithmetic (F : Type) : Type := {
  series_sum : list F -> F;
  divide : F -> Z -> F;
  zero : F
}.
Arguments series_sum {F} _ _.
Arguments divide {F} _ _ _.
Arguments zero {F} _.

(** A row of the frame of [load_df], with the columns [report] reads, and
    the columns each series reads of it. *)
Record frame_row : Type := {
  frame_local : Z;
  frame_artist : option string;
  frame_ms : Z
}.

Definition listened_of (r : frame_row) : listened :=
  {| played_local := frame_local r; listened_ms := frame_ms r |}.

Definition play_of (r : frame_row) : play :=
  {| play_artist := frame_artist r; play_ms := frame_ms r |}.

(** [save_bar] on a series keyed by hour and on a series keyed by name.
    pandas' plotting and matplotlib are not code of this repository, and a
    plot can raise (a series without any entry cannot be drawn as bars). *)
Record plotting (F : Type) : Type := {
  save_bar_hours : list (Z * F) -> result unit;
  save_bar_names : list (string * F) -> result unit
}.
Arguments save_bar_hours {F} _ _.
Arguments save_bar_names {F} _ _.

(** [report] from the frame on, up to the three figures of its summary:
    total minutes, days covered and average.  [Ok None] is the early return on
    an empty frame; the three series are computed and drawn, in this order,
    before the summary. *)
Definition report_figures {F : Type} (P : pandas F) (A : arithmetic F) (G : plotting F)
    (df : list frame_row) : result (option (F * Z * F)) :=
  match df with
  | [] => Ok None
  | _ =>
      let hours := by_hour P (map listened_of df) in
      let weekdays := by_day P (map listened_of df) in
      let top_art := top_artists P (map play_of df) in
      let! _ := save_bar_hours G hours in
      let! _ := save_bar_names G weekdays in
      let! _ := save_bar_names G top_art in
      let total := series_sum A (map (fun r => minutes_of P (frame_ms r)) df) in
      let days := Z.of_nat (List.length (int_keys (map (fun r => date_of (frame_local r)) df))) in
      Ok (Some (total, days, if days =? 0 then zero A else divide A total days))
  end.

Module Week.

(** Plays on Monday 2023-05-01 at 08:00 and 23:30, and on Friday
    2023-05-05 at 08:15. *)
Definition frame : list listened :=
  [ {| played_local := 1682928000; listened_ms := 60000 |};
    {| played_local := 1682983800; listened_ms := 120000 |};
    {| played_local := 1683274500; listened_ms := 60000 |} ].

Definition exact : arithmetic Q :=
  {| series_sum := fun l => Qred (fold_left Qplus l (Qmake 0 1));
     divide := fun x n => Qred (Qdiv x (inject_Z n));
     zero := Qmake 0 1 |}.

(** The same plays with their artists, and the same without any. *)
Definition rows : list frame_row :=
  [ {| frame_local := 1682928000; frame_artist := Some "B"; frame_ms := 60000 |};
    {| frame_local := 1682983800; frame_artist := None; frame_ms := 120000 |};
    {| frame_local := 1683274500; frame_artist := Some "A"; frame_ms := 60000 |} ].

Definition anonymous : list frame_row :=
  map (fun r => {| frame_local := frame_local r; frame_artist := None;
                   frame_ms := frame_ms r |}) rows.

(** A stand-in for the plots: a series without any entry is refused. *)
Definition charts : plotting Q :=
  {| save_bar_hours := fun s => match s with [] => Raise ValueError | _ => Ok tt end;
     save_bar_names := fun s => match s with [] => Raise ValueError | _ => Ok tt end |}.

End Week.

Lemma in_insert_int x k ks : In x (insert_int k ks) <-> x = k \/ In x ks.
Proof.
  induction ks as [| k' r IH]; cbn [insert_int In]; [intuition |].
  destruct (Z.compare_spec k k') as [-> | Hlt | Hgt]; cbn [In].
  - intuition.
  - intuition.
  - rewrite IH. intuition.
Qed.

Lemma insert_int_sorted k ks :
  StronglySorted Z.lt ks -> StronglySorted Z.lt (insert_int k ks).
Proof.
  induction 1 as [| k' r Hr IH Hall]; cbn [insert_int].
  - repeat constructor.
  - destruct (Z.compare_spec k k') as [-> | Hlt | Hgt].
    + constructor; assumption.
    + constructor; [constructor; assumption |].
      constructor; [exact Hlt |].
      eapply List.Forall_impl; [| exact Hall]. intros x Hx. lia.
    + constructor; [exact IH |].
      apply List.Forall_forall. intros x Hx. apply in_insert_int in Hx as [-> | Hx].
      * exact Hgt.
      * rewrite List.Forall_forall in Hall. apply Hall, Hx.
Qed.

Lemma int_keys_sorted column : StronglySorted Z.lt (int_keys column).
Proof.
  induction column as [| k column IH]; cbn; [constructor | apply insert_int_sorted, IH].
Qed.

Lemma in_int_keys x column : In x (int_keys column) <-> In x column.
Proof.
  induction column as [| k column IH]; cbn [int_keys fold_right In]; [tauto |].
  rewrite in_insert_int. fold (int_keys column). rewrite IH. intuition.
Qed.

Lemma length_insert_int k ks : (List.length (insert_int k ks) <= S (List.length ks))%nat.
Proof.
  induction ks as [| k' r IH]; cbn [insert_int List.length]; [lia |].
  destruct (k ?= k'); cbn [List.length]; lia.
Qed.

Lemma length_int_keys column : (List.length (int_keys column) <= List.length column)%nat.
Proof.
  induction column as [| k column IH]; cbn [int_keys fold_right List.length]; [lia |].
  fold (int_keys column). pose proof (length_insert_int k (int_keys column)). lia.
Qed.

(** Ascending integers from [lo] up to, not including, [hi]: no more
    than [hi - lo] of them. *)
Lemma sorted_range_length l :
  forall lo hi,
    StronglySorted Z.lt l ->
    Forall (fun x => lo <= x < hi) l ->
    Z.of_nat (List.length l) <= Z.max 0 (hi - lo).
Proof.
  induction l as [| a l IH]; intros lo hi Hs Hr; [cbn; lia |].
  apply StronglySorted_inv in Hs as [Hs Ha].
  apply Forall_cons in Hr as [Hlo Hr].
  specialize (IH (a + 1) hi Hs). cbn [List.length].
  assert (Hr' : Forall (fun x => a + 1 <= x < hi) l).
  { rewrite List.Forall_forall in Ha. rewrite Forall_forall in Hr |- *.
    intros x Hx. pose proof (Hr x Hx). pose proof (Ha x (proj1 (list_elem_of_In _ _) Hx)). lia. }
  specialize (IH Hr'). lia.
Qed.

Lemma hour_of_range w : 0 <= hour_of w < 24.
Proof.
  unfold hour_of. pose proof (Z.mod_pos_bound w 86400 ltac:(lia)) as Hm.
  split; [apply Z.div_pos; lia | apply Z.div_lt_upper_bound; lia].
Qed.

(** X19. The series by hour lists each hour that has a play once, in
    ascending order: its keys are hours from 0 to 23, it has at most 24
    entries, and an hour is listed exactly when a play falls in it. *)
Theorem by_hour_ascending {F : Type} (P : pandas F) df :
  StronglySorted Z.lt (map fst (by_hour P df)) /\
  Forall (fun h => 0 <= h < 24) (map fst (by_hour P df)) /\
  (List.length (by_hour P df) <= 24)%nat /\
  forall h, In h (map fst (by_hour P df)) <->
            exists r, In r df /\ hour_of (played_local r) = h.
Proof.
  assert (Hkeys : map fst (by_hour P df) =
                  int_keys (map (fun r => hour_of (played_local r)) df)).
  { unfold by_hour. rewrite map_map. cbn [fst]. apply map_id. }
  assert (Hrange : Forall (fun h => 0 <= h < 24) (map fst (by_hour P df))).
  { rewrite Hkeys. apply List.Forall_forall. intros h Hh.
    apply in_int_keys, in_map_iff in Hh as (r & <- & _). apply hour_of_range. }
  assert (Hsorted : StronglySorted Z.lt (map fst (by_hour P df)))
    by (rewrite Hkeys; apply int_keys_sorted).
  split; [exact Hsorted |].
  split; [exact Hrange |]. split.
  - pose proof (sorted_range_length _ 0 24 Hsorted Hrange) as Hlen.
    rewrite length_map in Hlen. lia.
  - intros h. rewrite Hkeys, in_int_keys, in_map_iff. split.
    + intros (r & Hr & Hin). eauto.
    + intros (r & Hin & Hr). eauto.
Qed.

Lemma day_name_known w : In (day_name w) days_by_name.
Proof.
  unfold day_name, days_by_name.
  destruct ((w / 86400 + 3) mod 7) as [| [[[| |] | [| |] |] | [[| |] | [| |] |] |] |]; cbn; tauto.
Qed.

(** An ascending list of names all taken from another is a sublist of
    it. *)
Lemma sorted_names_sublist m :
  forall l,
    StronglySorted name_lt l -> StronglySorted name_lt m ->
    (forall x, In x l -> In x m) -> sublist l m.
Proof.
  induction m as [| b m IH]; intros l Hl Hm Hsub.
  - destruct l as [| a l]; [constructor | destruct (Hsub a (or_introl eq_refl))].
  - destruct l as [| a l]; [apply sublist_nil_l |].
    apply StronglySorted_inv in Hm as [Hm Hb].
    pose proof Hl as Hl0. apply StronglySorted_inv in Hl0 as [Hl' Ha].
    rewrite List.Forall_forall in Ha, Hb.
    destruct (string_dec a b) as [-> | Hne].
    + apply sublist_skip. apply IH; [assumption | assumption |].
      intros x Hx. destruct (Hsub x (or_intror Hx)) as [<- | Hin]; [| exact Hin].
      destruct (name_lt_irrefl b). apply Ha, Hx.
    + apply sublist_cons. apply IH; [assumption | assumption |].
      assert (Hain : In a m).
      { destruct (Hsub a (or_introl eq_refl)) as [Heq | Hin]; [congruence | exact Hin]. }
      intros x [<- | Hx]; [exact Hain |].
      destruct (Hsub x (or_intror Hx)) as [<- | Hin]; [| exact Hin].
      destruct (name_lt_irrefl b).
      eapply name_lt_trans; [apply Hb, Hain | apply Ha, Hx].
Qed.

(** X20. The series by weekday lists the days in the alphabetical order
    of their English names (Friday, Monday, Saturday, Sunday, Thursday,
    Tuesday, Wednesday), not in the order of the week: its keys are a
    sublist of that list, so it has at most seven entries, one for each day
    on which something was played. *)
Theorem by_day_alphabetical {F : Type} (P : pandas F) df :
  sublist (map fst (by_day P df)) days_by_name /\
  (List.length (by_day P df) <= 7)%nat /\
  forall d, In d (map fst (by_day P df)) <->
            exists r, In r df /\ day_name (played_local r) = d.
Proof.
  assert (Hkeys : map fst (by_day P df) =
                  group_keys (map (fun r => day_name (played_local r)) df)).
  { unfold by_day. rewrite groupby_sum_keys, map_map. reflexivity. }
  assert (Hsub : sublist (map fst (by_day P df)) days_by_name).
  { rewrite Hkeys. apply sorted_names_sublist.
    - apply group_keys_sorted.
    - unfold days_by_name. repeat constructor; reflexivity.
    - intros x Hx. apply in_group_keys, in_map_iff in Hx as (r & <- & _).
      apply day_name_known. }
  split; [exact Hsub |]. split.
  - apply sublist_length in Hsub. rewrite length_map in Hsub. exact Hsub.
  - intros d. rewrite Hkeys, in_group_keys, in_map_iff. split.
    + intros (r & Hr & Hin). eauto.
    + intros (r & Hin & Hr). eauto.
Qed.

Example by_day_sample :
  map fst (by_day Exact.frame Week.frame) = ["Friday"; "Monday"] /\
  map fst (by_hour Exact.frame Week.frame) = [8; 23].
Proof. split; vm_compute; reflexivity. Qed.

(** X21. When [report] gets to its summary, that is on a frame that is
    not empty whose three charts were drawn, it counts at least one day and at
    most as many days as there are plays, so the average is the quotient
    [total_minutes / days]: the [0.0] kept for zero days is never used.  When
    a chart raises, [report] raises with it and no summary is written. *)
Theorem report_average_divides {F : Type} (P : pandas F) (A : arithmetic F) (G : plotting F)
    df :
  df <> [] ->
  match save_bar_hours G (by_hour P (map listened_of df)),
        save_bar_names G (by_day P (map listened_of df)),
        save_bar_names G (top_artists P (map play_of df)) with
  | Ok _, Ok _, Ok _ =>
      exists total days,
        report_figures P A G df = Ok (Some (total, days, divide A total days)) /\
        1 <= days <= Z.of_nat (List.length df)
  | Raise e, _, _ | Ok _, Raise e, _ | Ok _, Ok _, Raise e =>
      report_figures P A G df = Raise e
  end.
Proof.
  intros Hne. destruct df as [| r df]; [congruence |].
  set (dates := map (fun r => date_of (frame_local r)) (r :: df)).
  assert (Hlow : (1 <= List.length (int_keys dates))%nat).
  { assert (Hin : In (date_of (frame_local r)) (int_keys dates))
      by (apply in_int_keys; left; reflexivity).
    destruct (int_keys dates); [destruct Hin | cbn; lia]. }
  assert (Hhigh : (List.length (int_keys dates) <= List.length (r :: df))%nat).
  { pose proof (length_int_keys dates) as Hl. unfold dates in Hl at 2.
    rewrite length_map in Hl. exact Hl. }
  unfold report_figures. cbv zeta. fold dates.
  destruct (save_bar_hours G _) as [[] | e]; [| reflexivity].
  destruct (save_bar_names G (by_day P _)) as [[] | e]; [| reflexivity].
  destruct (save_bar_names G (top_artists P _)) as [[] | e]; [| reflexivity].
  cbn [rbind].
  eexists. exists (Z.of_nat (List.length (int_keys dates))).
  destruct (Z.eqb_spec (Z.of_nat (List.length (int_keys dates))) 0) as [Hz | _]; [lia |].
  split; [reflexivity | lia].
Qed.

Lemma report_average_divides_witness :
  (exists total days,
     report_figures Exact.frame Week.exact Week.charts Week.rows =
       Ok (Some (total, days, divide Week.exact total days)) /\
     1 <= days <= 3) /\
  report_figures Exact.frame Week.exact Week.charts Week.anonymous = Raise ValueError.
Proof.
  split.
  - apply (report_average_divides Exact.frame Week.exact Week.charts Week.rows).
    discriminate.
  - apply (report_average_divides Exact.frame Week.exact Week.charts Week.anonymous).
    discriminate.
Defined.

(** ** When [ingest_export] returns *)

Lemma insert_events_bindable d rows h :
  Forall (fun r => bind_row r = Ok tt) rows ->
  snd (insert_events d rows h) = None.
Proof.
  intros Hall. revert d. induction Hall as [| r rows Hr _ IH]; intros d;
    cbn [insert_events]; [reflexivity |].
  unfold insert_event. rewrite Hr. cbn [rbind]. apply IH.
Qed.

(** X22. The failures of the file system and of the database engine
    apart, [ingest_export] returns whenever, for every file, the records are
    normalised without an exception, the rows can be bound, and the path and
    the export root can be bound.  In particular the [UNIQUE] constraint on
    [file_hash] is never hit by a run, even when two files of the run have the
    same bytes. *)
Theorem ingest_export_returns H L clock root c files :
  Forall (fun f => exists rows,
            file_rows H L f = Ok rows /\ Forall (fun r => bind_row r = Ok tt) rows /\
            bind_import root (path f) = Ok tt) files ->
  exists c' sm, snd (ingest_export H L clock root c files) = Ok (c', sm).
Proof.
  intros Hall.
  assert (Hloop : forall n, exists c' n',
             snd (ingest_loop H L clock root c n files) = Ok (c', n')).
  { revert c. induction Hall as [| f rest (rows & Hrows & Hbind & Hpath) _ IH]; intros c n.
    - exists c, n. reflexivity.
    - rewrite ingest_loop_cons.
      destruct (already_imported c (sha256 H (content f))) eqn:Hseen.
      + rewrite (process_file_skips H L clock root c n f Hseen). cbn [snd]. apply IH.
      + pose proof (process_file_imports H L clock root c n f rows Hseen Hrows) as Hp.
        cbv zeta in Hp. rewrite (insert_events_bindable _ _ _ Hbind), Hpath in Hp.
        rewrite Hp. cbn [snd]. apply IH. }
  destruct (Hloop zero_counters) as (c' & n' & Hrun).
  exists c'. eexists. apply ingest_export_ok. exact Hrun.
Qed.

(** The sample files, two of them with the same bytes. *)
Lemma ingest_export_returns_witness :
  exists c' sm,
    snd (ingest_export Sample.machine Ref.libs Sample.clock "/export"
           (connect empty_db) Sample.files) = Ok (c', sm).
Proof.
  apply (ingest_export_returns Sample.machine Ref.libs Sample.clock "/export"
           (connect empty_db) Sample.files).
  repeat (constructor;
          [eexists; split; [vm_compute; reflexivity | split; [repeat constructor | reflexivity]] |]).
  constructor.
Defined.
